(** * snoop: the validation-and-load pipeline of [main.py]

    A shallow embedding of [snoop_assignment/main.py]: the data-quality
    checks over a DataFrame, the three PostgreSQL sinks with their
    [ON CONFLICT] clauses, and the orchestration of [main] inside one
    psycopg2 transaction.

    pandas, [uuid], psycopg2 and PostgreSQL are libraries; what the program
    needs from them is collected in the class [Library] (element-wise
    parsers and conversions) and in the fault plan of a run (which store
    interaction fails, and how).  Every theorem holds for every such
    library; the examples use [iso_library].

    A record is an object with the ten keys of the input; the frame takes
    its columns from the records, in the order of their keys, and has no
    column when there is no record. *)

From Stdlib Require Import String Ascii Bool Arith ZArith NArith Lia Permutation List.
Import ListNotations.
Open Scope string_scope.
Open Scope list_scope.

Set Implicit Arguments.

(** ** Values *)

(** [uuid.UUID] holds a 128-bit integer. *)
Definition uuid := N.
(** A pandas [Timestamp] / PostgreSQL [TIMESTAMP]: seconds since the epoch. *)
Definition timestamp := Z.
(** A PostgreSQL [DATE]: days since the epoch. *)
Definition date := Z.
(** A [NUMERIC(10, 2)] amount, in hundredths. *)
Definition numeric := Z.

Definition date_of_timestamp (ts : timestamp) : date := (ts / 86400)%Z.

(** Exceptions the program can meet. *)
Inductive exn : Type :=
  | KeyError                (* pandas, a column the frame does not have *)
  | ValueError              (* a pandas or uuid conversion that raises *)
  | ProgrammingError        (* psycopg2, raised in the client while binding parameters *)
  | DatabaseError           (* psycopg2, a statement the server rejects *)
  | InFailedSqlTransaction  (* psycopg2, a statement sent to a failed transaction *)
  | OperationalError.       (* psycopg2, no connection *)

(** The ten columns of the input, named as the keys of a record. *)
Inductive column_name : Type :=
  | col_customerId | col_customerName | col_transactionId | col_transactionDate
  | col_sourceDate | col_merchantId | col_categoryId | col_currency
  | col_amount | col_description.

(** A value of a converted frame, as psycopg2 receives it in a tuple: a
    [uuid.UUID], a [str], a [Timestamp], an [int], a number. *)
Inductive cell : Type :=
  | cell_uuid (u : uuid)
  | cell_text (s : string)
  | cell_timestamp (t : timestamp)
  | cell_integer (z : Z)
  | cell_numeric (n : numeric).

(** The library functions [main.py] calls on single values.
    [to_datetime fmt s] is [pd.to_datetime] on one element, [None] where it
    finds no date ([NaT] under [errors='coerce'], an exception otherwise).
    [pg_uuid], [pg_text], ... are PostgreSQL's conversions of a parameter
    of another kind to the type of the column it is bound to, for a
    statement the server accepts. *)
Class Library : Type := {
  to_datetime : option string -> string -> option timestamp;
  to_numeric : string -> option numeric;
  UUID : string -> option uuid;
  pg_uuid : cell -> uuid;
  pg_text : cell -> string;
  pg_date : cell -> date;
  pg_timestamp : cell -> timestamp;
  pg_integer : cell -> Z;
  pg_numeric : cell -> numeric
}.

(** ** The record model *)

(** One element of [data['transactions']], as read from the JSON file: an
    object with the ten keys.  [keys] is the order in which the object
    lists them. *)
Record Transaction : Type := mkTransaction {
  keys : list column_name;
  customerId : string;
  customerName : string;
  transactionId : string;
  transactionDate : string;
  sourceDate : string;
  merchantId : Z;
  categoryId : Z;
  currency : string;
  amount : string;
  description : string
}.

(** A DataFrame: rows with their index labels.  [pd.DataFrame(records)]
    labels the rows 0, 1, 2, ... and boolean selection keeps the labels. *)
Definition DataFrame : Type := list (nat * Transaction).

Definition pd_DataFrame (records : list Transaction) : DataFrame :=
  combine (seq 0 (length records)) records.

(** The columns of [pd.DataFrame(records)]: the keys of the records in the
    order of their first appearance, which is the order of the first
    record; a frame built from no record has no column.  Selecting rows
    keeps the columns. *)
Definition DataFrame_columns (records : list Transaction) : list column_name :=
  match records with
  | [] => []
  | first :: _ => keys first
  end.

(** [load_data_from_json]: the frame of [data['transactions']]; [None] is
    the frame without rows and without columns. *)
Definition load_data_from_json (transactions : list Transaction) : option DataFrame :=
  match transactions with
  | [] => None
  | _ :: _ => Some (pd_DataFrame transactions)
  end.

(** [df[name]]: one column of the frame. *)
Definition column {A : Type} (f : Transaction -> A) (df : DataFrame) : list A :=
  map (fun row => f (snd row)) df.

(** Boolean Series and their operators [&], [|], [~]. *)
Fixpoint series_zip (op : bool -> bool -> bool) (a b : list bool) : list bool :=
  match a, b with
  | x :: a', y :: b' => op x y :: series_zip op a' b'
  | _, _ => []
  end.

Definition series_and := series_zip andb.
Definition series_or := series_zip orb.
Definition series_not (a : list bool) : list bool := map negb a.

(** [df[mask]]: the rows whose mask entry is [True], in order. *)
Fixpoint select {A : Type} (df : list A) (mask : list bool) : list A :=
  match df, mask with
  | row :: df', b :: mask' =>
      if b then row :: select df' mask' else select df' mask'
  | _, _ => []
  end.

(** ** data_quality_checks *)

Definition allowable_currencies : list string := ["EUR"; "GBP"; "USD"].

(** [Series.isin(values)] *)
Definition isin (values : list string) (col : list string) : list bool :=
  map (fun v => existsb (String.eqb v) values) col.

(** The [errors=] argument of [pd.to_datetime]. *)
Inductive errors_policy : Type := errors_raise | errors_coerce.

Section Validator.

Context {lib : Library}.

(** [pd.to_datetime(col, format=fmt, errors=policy)] on a column: under
    [errors='coerce'] an element that does not parse becomes [NaT];
    under [errors='raise'] (the default) it raises. *)
Definition pd_to_datetime (fmt : option string) (policy : errors_policy)
    (col : list string) : exn + list (option timestamp) :=
  let parsed := map (to_datetime fmt) col in
  match policy with
  | errors_coerce => inr parsed
  | errors_raise =>
      if forallb (fun p => match p with Some _ => true | None => false end) parsed
      then inr parsed else inl ValueError
  end.

(** [Series.notna()] *)
Definition notna {A : Type} (col : list (option A)) : list bool :=
  map (fun p => match p with Some _ => true | None => false end) col.

(** The key [groupby(['transactionId', 'customerId'])] groups on. *)
Definition group_key (t : Transaction) : string * string :=
  (transactionId t, customerId t).

Definition group_key_eqb (a b : string * string) : bool :=
  String.eqb (fst a) (fst b) && String.eqb (snd a) (snd b).

(** [Series.nunique()]: the number of distinct values. *)
Definition nunique (values : list string) : nat :=
  length (nodup string_dec values).

(** [df.groupby(['transactionId', 'customerId'])['transactionId'].transform('nunique')]:
    every row receives the number of distinct [transactionId] values found
    in the group of rows that share its key. *)
Definition groupby_transform_nunique (df : DataFrame) : list nat :=
  map (fun row =>
         nunique (column transactionId
                    (filter (fun other =>
                               group_key_eqb (group_key (snd other))
                                             (group_key (snd row))) df)))
      df.

Definition data_quality_checks (df : DataFrame) : exn + (DataFrame * DataFrame) :=
  (* Condition 1: the currency is in the allow-list *)
  let condition1 := isin allowable_currencies (column currency df) in
  (* Condition 2: transactionDate is in YYYY-MM-DD format *)
  match pd_to_datetime (Some "%Y-%m-%d") errors_coerce (column transactionDate df) with
  | inl e => inl e
  | inr dates =>
      let condition2 := notna dates in
      (* Condition 3: duplicate transaction records *)
      let condition3 := map (fun n => Nat.eqb n 1) (groupby_transform_nunique df) in
      let final_condition := series_and (series_and condition1 condition2) condition3 in
      let filtered_df := select df final_condition in
      let failed_condition :=
        series_or (series_or (series_not condition1) (series_not condition2))
                  (series_not condition3) in
      let failed_df := select df failed_condition in
      inr (filtered_df, failed_df)
  end.

(** [data_quality_checks] on the frame [main] loads: on the frame without
    columns [df['currency']] raises. *)
Definition data_quality_checks_loaded (df : option DataFrame)
    : exn + (DataFrame * DataFrame) :=
  match df with
  | None => inl KeyError
  | Some df => data_quality_checks df
  end.

End Validator.

(** ** The typed rows and the three relations *)

(** A row of [filtered_df] after the type conversions of [main], which is
    also a row of [transactions_table]. *)
Record TransactionRow : Type := mkTransactionRow {
  t_customerId : uuid;
  t_customerName : string;
  t_transactionId : uuid;
  t_transactionDate : date;
  t_sourceDate : timestamp;
  t_merchantId : Z;
  t_categoryId : Z;
  t_currency : string;
  t_amount : numeric;
  t_description : string
}.

(** A row of [customer_table]. *)
Record CustomerRow : Type := mkCustomerRow {
  c_customerId : uuid;
  c_customerName : string;
  c_transactionDate : date
}.

(** A row of [error_log_table]; the identifiers are kept as submitted,
    [failed_df] is not converted. *)
Record ErrorLogRow : Type := mkErrorLogRow {
  e_customerId : string;
  e_transactionId : string;
  e_description : string
}.

(** The persistent store.  A relation that was never created is [None];
    a relation is the list of its rows in insertion order. *)
Record Database : Type := mkDatabase {
  transactions_table : option (list TransactionRow);
  customer_table : option (list CustomerRow);
  error_log_table : option (list ErrorLogRow)
}.

(** *** INSERT INTO transactions_table ... ON CONFLICT (customerId, transactionId) DO UPDATE *)

Definition transaction_key (r : TransactionRow) : uuid * uuid :=
  (t_customerId r, t_transactionId r).

Definition transaction_conflict (excluded existing : TransactionRow) : bool :=
  N.eqb (t_customerId existing) (t_customerId excluded)
  && N.eqb (t_transactionId existing) (t_transactionId excluded).

(** The [SET] list: the two key columns stay, the eight others are taken
    from [EXCLUDED]. *)
Definition update_transaction (excluded existing : TransactionRow) : TransactionRow :=
  {| t_customerId := t_customerId existing;
     t_customerName := t_customerName excluded;
     t_transactionId := t_transactionId existing;
     t_transactionDate := t_transactionDate excluded;
     t_sourceDate := t_sourceDate excluded;
     t_merchantId := t_merchantId excluded;
     t_categoryId := t_categoryId excluded;
     t_currency := t_currency excluded;
     t_amount := t_amount excluded;
     t_description := t_description excluded |}.

Definition upsert_transaction (excluded : TransactionRow)
    (table : list TransactionRow) : list TransactionRow :=
  if existsb (transaction_conflict excluded) table
  then map (fun existing =>
              if transaction_conflict excluded existing
              then update_transaction excluded existing else existing) table
  else table ++ [excluded].

(** *** INSERT INTO customer_table ... ON CONFLICT (customerId) DO UPDATE *)

Definition customer_conflict (excluded existing : CustomerRow) : bool :=
  N.eqb (c_customerId existing) (c_customerId excluded).

(** SQL [GREATEST] of two dates. *)
Definition GREATEST (a b : date) : date := Z.max a b.

Definition update_customer (excluded existing : CustomerRow) : CustomerRow :=
  {| c_customerId := c_customerId existing;
     c_customerName := c_customerName excluded;
     c_transactionDate :=
       GREATEST (c_transactionDate excluded) (c_transactionDate existing) |}.

Definition upsert_customer (excluded : CustomerRow)
    (table : list CustomerRow) : list CustomerRow :=
  if existsb (customer_conflict excluded) table
  then map (fun existing =>
              if customer_conflict excluded existing
              then update_customer excluded existing else existing) table
  else table ++ [excluded].

(** *** The statements [main.py] sends *)

Inductive statement : Type :=
  | CreateTransactionsTable
  | CreateCustomerTable
  | CreateErrorLogTable
  | InsertTransaction (r : TransactionRow)
  | InsertCustomer (r : CustomerRow)
  | InsertErrorLog (r : ErrorLogRow).

Definition if_not_exists {A : Type} (table : option (list A)) : option (list A) :=
  match table with Some rows => Some rows | None => Some [] end.

(** One statement on the server; [None] when the relation it writes to
    does not exist. *)
Definition exec_sql (st : statement) (db : Database) : option Database :=
  match st with
  | CreateTransactionsTable =>
      Some (mkDatabase (if_not_exists (transactions_table db))
                       (customer_table db) (error_log_table db))
  | CreateCustomerTable =>
      Some (mkDatabase (transactions_table db)
                       (if_not_exists (customer_table db)) (error_log_table db))
  | CreateErrorLogTable =>
      Some (mkDatabase (transactions_table db) (customer_table db)
                       (if_not_exists (error_log_table db)))
  | InsertTransaction r =>
      match transactions_table db with
      | Some table =>
          Some (mkDatabase (Some (upsert_transaction r table))
                           (customer_table db) (error_log_table db))
      | None => None
      end
  | InsertCustomer r =>
      match customer_table db with
      | Some table =>
          Some (mkDatabase (transactions_table db)
                           (Some (upsert_customer r table)) (error_log_table db))
      | None => None
      end
  | InsertErrorLog r =>
      match error_log_table db with
      | Some table =>
          Some (mkDatabase (transactions_table db) (customer_table db)
                           (Some (table ++ [r])))
      | None => None
      end
  end.

(** ** The connection and its transaction *)

(** A psycopg2 connection without autocommit: [durable] is what was
    committed, [working] what the open transaction sees, [failed] tells
    that the server rejected a statement of this transaction, after which
    it refuses every statement until the transaction ends. *)
Record Connection : Type := mkConnection {
  durable : Database;
  working : Database;
  failed : bool
}.

Definition connect (db : Database) : Connection := mkConnection db db false.

(** [conn.commit()]: a failed transaction is ended by discarding it. *)
Definition commit (conn : Connection) : Database :=
  if failed conn then durable conn else working conn.

(** [conn.close()] with nothing committed. *)
Definition close (conn : Connection) : Database := durable conn.

(** [cursor.execute(statement)]; [rejected] says that the server refuses
    this statement (a constraint, a value it cannot store, a privilege). *)
Definition cursor_execute (rejected : bool) (st : statement)
    (cursor : Connection) : Connection * option exn :=
  if failed cursor then (cursor, Some InFailedSqlTransaction)
  else if rejected
  then (mkConnection (durable cursor) (working cursor) true, Some DatabaseError)
  else match exec_sql st (working cursor) with
       | Some db' => (mkConnection (durable cursor) db' false, None)
       | None =>
           (mkConnection (durable cursor) (working cursor) true, Some DatabaseError)
       end.

(** Sequencing inside a [try] block: the first exception leaves it. *)
Definition and_then (r : Connection * option exn)
    (k : Connection -> Connection * option exn) : Connection * option exn :=
  match r with
  | (cursor, None) => k cursor
  | (cursor, Some e) => (cursor, Some e)
  end.

(** How one call of a sink goes wrong.  [client_error n]: psycopg2 raises
    in the client while it binds the parameters of a row (a value it cannot
    adapt, a row whose length is not the number of placeholders), after
    the [n] rows of the pages already sent were executed; nothing reaches
    the server, the transaction stays usable.  [server_error n]: the
    server rejects the statement of row [n]. *)
Inductive fault : Type :=
  | client_error (n : nat)
  | server_error (n : nat).

Definition client_raises (flt : option fault) (sent : nat) : bool :=
  match flt with Some (client_error n) => Nat.eqb n sent | _ => false end.

Definition server_rejects (flt : option fault) (sent : nat) : bool :=
  match flt with Some (server_error n) => Nat.eqb n sent | _ => false end.

(** [psycopg2.extras.execute_batch(cursor, sql, argslist)]: one statement
    per element of [argslist], executed in order. *)
Fixpoint execute_batch {A : Type} (flt : option fault) (sent : nat)
    (sql : A -> statement) (argslist : list A) (cursor : Connection)
    : Connection * option exn :=
  match argslist with
  | [] => (cursor, None)
  | args :: rest =>
      if client_raises flt sent then (cursor, Some ProgrammingError)
      else and_then (cursor_execute (server_rejects flt sent) (sql args) cursor)
                    (execute_batch flt (S sent) sql rest)
  end.

(** A line of standard output: the text, and the error printed after it. *)
Definition line : Type := string * option exn.

(** The [try ... except ... print] around each store operation. *)
Definition report (ok err : string) (r : Connection * option exn)
    : Connection * list line :=
  match r with
  | (cursor, None) => (cursor, [(ok, None)])
  | (cursor, Some e) => (cursor, [(err, Some e)])
  end.

(** Which of the three [CREATE TABLE] statements the server rejects. *)
Inductive schema_fault : Type :=
  | fails_transactions_table
  | fails_customer_table
  | fails_error_log_table.

Definition create_tables (flt : option schema_fault) (cursor : Connection)
    : Connection * list line :=
  report "Tables created successfully!" "Error creating tables:"
    (and_then
       (cursor_execute
          (match flt with Some fails_transactions_table => true | _ => false end)
          CreateTransactionsTable cursor)
       (fun cursor =>
          and_then
            (cursor_execute
               (match flt with Some fails_customer_table => true | _ => false end)
               CreateCustomerTable cursor)
            (cursor_execute
               (match flt with Some fails_error_log_table => true | _ => false end)
               CreateErrorLogTable))).

(** The sink on the rows it submits: [filtered_df] holds, for each row of
    the frame, the ten values as they are bound to the ten parameters. *)
Definition insert_into_transactions_table (flt : option fault)
    (cursor : Connection) (filtered_df : list TransactionRow)
    : Connection * list line :=
  report "Transactions inserted or updated successfully!"
         "Error inserting or updating transactions:"
    (execute_batch flt 0 InsertTransaction filtered_df cursor).

(** [filtered_df[['customerId', 'customerName', 'transactionDate']]] *)
Definition customer_columns (r : TransactionRow) : CustomerRow :=
  mkCustomerRow (t_customerId r) (t_customerName r) (t_transactionDate r).

Definition insert_into_customer_table (flt : option fault)
    (cursor : Connection) (filtered_df : list TransactionRow)
    : Connection * list line :=
  report "Customer records inserted or updated successfully!"
         "Error inserting or updating customer records:"
    (execute_batch flt 0 InsertCustomer (map customer_columns filtered_df) cursor).

(** [failed_df[['customerId', 'transactionId', 'description']]] *)
Definition error_log_columns (row : nat * Transaction) : ErrorLogRow :=
  mkErrorLogRow (customerId (snd row)) (transactionId (snd row))
                (description (snd row)).

Definition insert_into_error_log_table (flt : option fault)
    (cursor : Connection) (failed_df : DataFrame) : Connection * list line :=
  report "Error log records inserted successfully!"
         "Error inserting error log records:"
    (execute_batch flt 0 InsertErrorLog (map error_log_columns failed_df) cursor).

(** ** main *)

(** What a run leaves behind: the lines it printed, the exception that
    left [main] if one did, and the persistent store after the connection
    is closed. *)
Record Result : Type := mkResult {
  stdout : list line;
  raised : option exn;
  store : Database
}.

(** The store interactions of one run that go wrong. *)
Record Faults : Type := mkFaults {
  connect_fails : bool;
  create_tables_fault : option schema_fault;
  transactions_fault : option fault;
  customer_fault : option fault;
  error_log_fault : option fault
}.

Definition no_faults : Faults := mkFaults false None None None None.

Fixpoint traverse {A B : Type} (f : A -> option B) (l : list A) : option (list B) :=
  match l with
  | [] => Some []
  | x :: l' =>
      match f x, traverse f l' with
      | Some y, Some ys => Some (y :: ys)
      | _, _ => None
      end
  end.

Section Pipeline.

Context {lib : Library}.

(** The five conversions of [main] on one row, in the order of the source:
    [sourceDate], [amount], [customerId], [transactionId],
    [transactionDate].  The [DATE] column keeps the day of the timestamp. *)
Definition convert_row (t : Transaction) : option TransactionRow :=
  match to_datetime None (sourceDate t) with
  | None => None
  | Some source_date =>
  match to_numeric (amount t) with
  | None => None
  | Some amount_value =>
  match UUID (customerId t) with
  | None => None
  | Some customer_id =>
  match UUID (transactionId t) with
  | None => None
  | Some transaction_id =>
  match to_datetime None (transactionDate t) with
  | None => None
  | Some transaction_date =>
      Some {| t_customerId := customer_id;
              t_customerName := customerName t;
              t_transactionId := transaction_id;
              t_transactionDate := date_of_timestamp transaction_date;
              t_sourceDate := source_date;
              t_merchantId := merchantId t;
              t_categoryId := categoryId t;
              t_currency := currency t;
              t_amount := amount_value;
              t_description := description t |}
  end end end end end.

(** The data type conversions of [main]: each of the five column
    assignments raises when an element of its column does not convert;
    otherwise the frame handed to the sinks holds the converted rows. *)
Definition convert_types (filtered_df : DataFrame) : exn + list TransactionRow :=
  match traverse convert_row (map snd filtered_df) with
  | Some rows => inr rows
  | None => inl ValueError
  end.

(** The columns in the order of the [INSERT INTO transactions_table]. *)
Definition insert_columns : list column_name :=
  [ col_customerId; col_customerName; col_transactionId; col_transactionDate;
    col_sourceDate; col_merchantId; col_categoryId; col_currency;
    col_amount; col_description ].

(** The value of a converted row in one column.  The [transactionDate] of
    an accepted row is a [Timestamp] without time of day. *)
Definition cell_of (r : TransactionRow) (c : column_name) : cell :=
  match c with
  | col_customerId => cell_uuid (t_customerId r)
  | col_customerName => cell_text (t_customerName r)
  | col_transactionId => cell_uuid (t_transactionId r)
  | col_transactionDate => cell_timestamp (t_transactionDate r * 86400)%Z
  | col_sourceDate => cell_timestamp (t_sourceDate r)
  | col_merchantId => cell_integer (t_merchantId r)
  | col_categoryId => cell_integer (t_categoryId r)
  | col_currency => cell_text (t_currency r)
  | col_amount => cell_numeric (t_amount r)
  | col_description => cell_text (t_description r)
  end.

(** [tuple(row)] for a row of [filtered_df.itertuples(index=False, name=None)]:
    the values of all the columns of the frame, in the order of the frame. *)
Definition itertuples (columns : list column_name) (r : TransactionRow) : list cell :=
  map (cell_of r) columns.

(** What a column stores of the parameter bound to it: a value of the
    column's kind as it is (a [DATE] keeps the day of a timestamp), a
    value of another kind as PostgreSQL converts it. *)
Definition as_uuid (c : cell) : uuid :=
  match c with cell_uuid u => u | _ => pg_uuid c end.
Definition as_text (c : cell) : string :=
  match c with cell_text s => s | _ => pg_text c end.
Definition as_date (c : cell) : date :=
  match c with cell_timestamp t => date_of_timestamp t | _ => pg_date c end.
Definition as_timestamp (c : cell) : timestamp :=
  match c with cell_timestamp t => t | _ => pg_timestamp c end.
Definition as_integer (c : cell) : Z :=
  match c with cell_integer z => z | _ => pg_integer c end.
Definition as_numeric (c : cell) : numeric :=
  match c with cell_numeric n => n | _ => pg_numeric c end.

(** The ten [%s] of the [INSERT INTO transactions_table] take the values
    of the tuple by position; psycopg2 raises when the tuple does not hold
    ten values. *)
Definition bind_parameters (args : list cell) : option TransactionRow :=
  match args with
  | [c1; c2; c3; c4; c5; c6; c7; c8; c9; c10] =>
      Some {| t_customerId := as_uuid c1;
              t_customerName := as_text c2;
              t_transactionId := as_uuid c3;
              t_transactionDate := as_date c4;
              t_sourceDate := as_timestamp c5;
              t_merchantId := as_integer c6;
              t_categoryId := as_integer c7;
              t_currency := as_text c8;
              t_amount := as_numeric c9;
              t_description := as_text c10 |}
  | _ => None
  end.

(** The rows the transactions sink submits for a converted frame with the
    given columns. *)
Definition transaction_parameters (columns : list column_name)
    (rows : list TransactionRow) : option (list TransactionRow) :=
  traverse (fun r => bind_parameters (itertuples columns r)) rows.

(** [insert_into_transactions_table(cursor, filtered_df)] on the converted
    frame of [main]: the whole rows are bound by position, an exception of
    the binding is caught and printed like the others. *)
Definition write_transactions (flt : option fault) (cursor : Connection)
    (columns : list column_name) (rows : list TransactionRow) : Connection * list line :=
  match transaction_parameters columns rows with
  | Some parameters => insert_into_transactions_table flt cursor parameters
  | None =>
      (cursor, [("Error inserting or updating transactions:", Some ProgrammingError)])
  end.

Definition main (records : list Transaction) (flt : Faults) (db : Database)
    : Result :=
  let df := load_data_from_json records in
  if connect_fails flt
  then mkResult [("Error connecting to database:", Some OperationalError)] None db
  else
    let conn := connect db in
    let out0 := [("Connected to PostgreSQL database successfully!", None)] in
    let (cursor1, out1) := create_tables (create_tables_fault flt) conn in
    match data_quality_checks_loaded df with
    | inl e => mkResult (out0 ++ out1) (Some e) (close cursor1)
    | inr (filtered_df, failed_df) =>
        match convert_types filtered_df with
        | inl e => mkResult (out0 ++ out1) (Some e) (close cursor1)
        | inr rows =>
            let (cursor2, out2) :=
              write_transactions (transactions_fault flt) cursor1
                (DataFrame_columns records) rows in
            let (cursor3, out3) :=
              insert_into_customer_table (customer_fault flt) cursor2 rows in
            let (cursor4, out4) :=
              insert_into_error_log_table (error_log_fault flt) cursor3 failed_df in
            mkResult (out0 ++ out1 ++ out2 ++ out3 ++ out4) None (commit cursor4)
        end
    end.

(** One run, and a sequence of runs, on the persistent store. *)
Definition run (db : Database) (r : list Transaction * Faults) : Database :=
  store (main (fst r) (snd r) db).

Definition runs (rs : list (list Transaction * Faults)) (db : Database) : Database :=
  fold_left run rs db.

End Pipeline.

(** ** Observations on the store and on a run *)

(** The rows of a relation, none when it does not exist. *)
Definition rows_of {A : Type} (table : option (list A)) : list A :=
  match table with Some rows => rows | None => [] end.

(** The [TransactionFact] rows stored under a key. *)
Definition has_key (key : uuid * uuid) (r : TransactionRow) : bool :=
  N.eqb (t_customerId r) (fst key) && N.eqb (t_transactionId r) (snd key).

Definition facts_of (key : uuid * uuid) (table : list TransactionRow)
    : list TransactionRow :=
  filter (has_key key) table.

(** The [CustomerRollup] row of a customer. *)
Definition rollup_of (customer : uuid) (table : list CustomerRow)
    : option CustomerRow :=
  find (fun r => N.eqb (c_customerId r) customer) table.

Definition rollup_date (customer : uuid) (db : Database) : option date :=
  option_map c_transactionDate (rollup_of customer (rows_of (customer_table db))).

(** The primary keys. *)
Definition transactions_pkey (table : list TransactionRow) : Prop :=
  NoDup (map transaction_key table).

Definition customer_pkey (table : list CustomerRow) : Prop :=
  NoDup (map c_customerId table).

(** The error lines the three sinks print. *)
Definition sink_errors : list string :=
  [ "Error inserting or updating transactions:";
    "Error inserting or updating customer records:";
    "Error inserting error log records:" ].

(** The lines of a run that a sink printed, success or error. *)
Definition sink_messages : list string :=
  [ "Transactions inserted or updated successfully!";
    "Customer records inserted or updated successfully!";
    "Error log records inserted successfully!" ] ++ sink_errors.

Definition sink_lines (r : Result) : list line :=
  filter (fun l => existsb (String.eqb (fst l)) sink_messages) (stdout r).

(** A sink of the run failed with exception [e]. *)
Definition sink_failed (r : Result) (e : exn) : Prop :=
  exists msg, In msg sink_errors /\ In (msg, Some e) (stdout r).


(** ** A library for the examples

    ISO dates and timestamps, plain decimal amounts and hexadecimal UUIDs:
    the forms the sample records use. *)

Definition digit_value (c : ascii) : option Z :=
  let n := nat_of_ascii c in
  if Nat.leb 48 n && Nat.leb n 57 then Some (Z.of_nat (n - 48)) else None.

Fixpoint digits_value (s : string) (acc : Z) : option Z :=
  match s with
  | EmptyString => Some acc
  | String c s' =>
      match digit_value c with
      | Some d => digits_value s' (acc * 10 + d)%Z
      | None => None
      end
  end.

Definition decimal (s : string) : option Z :=
  match s with EmptyString => None | _ => digits_value s 0%Z end.

Definition is_leap (y : Z) : bool :=
  ((y mod 4 =? 0) && (negb (y mod 100 =? 0) || (y mod 400 =? 0)))%Z.

Definition days_in_month (y m : Z) : Z :=
  (if m =? 2 then (if is_leap y then 29 else 28)
   else if (m =? 4) || (m =? 6) || (m =? 9) || (m =? 11) then 30 else 31)%Z.

(** Days from 1970-01-01 to the given day of the proleptic Gregorian
    calendar. *)
Definition days_from_civil (y m d : Z) : Z :=
  (let y' := if m <=? 2 then y - 1 else y in
   let era := y' / 400 in
   let yoe := y' - era * 400 in
   let doy := (153 * (if m <=? 2 then m + 9 else m - 3) + 2) / 5 + d - 1 in
   let doe := yoe * 365 + yoe / 4 - yoe / 100 + doy in
   era * 146097 + doe - 719468)%Z.

(** [YYYY-MM-DD], a day that exists. *)
Definition parse_date (s : string) : option date :=
  if Nat.eqb (String.length s) 10
     && String.eqb (substring 4 1 s) "-" && String.eqb (substring 7 1 s) "-"
  then match decimal (substring 0 4 s), decimal (substring 5 2 s),
             decimal (substring 8 2 s) with
       | Some y, Some m, Some d =>
           if ((1 <=? m) && (m <=? 12) && (1 <=? d) && (d <=? days_in_month y m))%Z
           then Some (days_from_civil y m d) else None
       | _, _, _ => None
       end
  else None.

(** [HH:MM:SS], in seconds. *)
Definition parse_time (s : string) : option Z :=
  if Nat.eqb (String.length s) 8
     && String.eqb (substring 2 1 s) ":" && String.eqb (substring 5 1 s) ":"
  then match decimal (substring 0 2 s), decimal (substring 3 2 s),
             decimal (substring 6 2 s) with
       | Some h, Some m, Some sec =>
           if ((h <? 24) && (m <? 60) && (sec <? 60))%Z
           then Some (h * 3600 + m * 60 + sec)%Z else None
       | _, _, _ => None
       end
  else None.

Definition iso_to_datetime (fmt : option string) (s : string) : option timestamp :=
  match fmt with
  | Some f =>
      if String.eqb f "%Y-%m-%d"
      then option_map (fun d => d * 86400)%Z (parse_date s) else None
  | None =>
      if Nat.eqb (String.length s) 10
      then option_map (fun d => d * 86400)%Z (parse_date s)
      else if String.eqb (substring 10 1 s) "T" || String.eqb (substring 10 1 s) " "
      then match parse_date (substring 0 10 s), parse_time (substring 11 8 s) with
           | Some d, Some t =>
               if Nat.eqb (String.length s) 19 then Some (d * 86400 + t)%Z else None
           | _, _ => None
           end
      else None
  end.

(** [12], [12.5] or [12.50], in hundredths. *)
Definition plain_to_numeric (s : string) : option numeric :=
  match index 0 "." s with
  | None => option_map (fun units => units * 100)%Z (decimal s)
  | Some i =>
      let fraction := substring (S i) (String.length s - S i) s in
      match decimal (substring 0 i s), decimal fraction with
      | Some units, Some cents =>
          match String.length fraction with
          | 1 => Some (units * 100 + cents * 10)%Z
          | 2 => Some (units * 100 + cents)%Z
          | _ => None
          end
      | _, _ => None
      end
  end.

Definition hex_value (c : ascii) : option N :=
  let n := nat_of_ascii c in
  if Nat.leb 48 n && Nat.leb n 57 then Some (N.of_nat (n - 48))
  else if Nat.leb 97 n && Nat.leb n 102 then Some (N.of_nat (n - 87))
  else if Nat.leb 65 n && Nat.leb n 70 then Some (N.of_nat (n - 55))
  else None.

Fixpoint remove_hyphens (s : string) : string :=
  match s with
  | EmptyString => EmptyString
  | String c s' =>
      if Ascii.eqb c "-"%char then remove_hyphens s' else String c (remove_hyphens s')
  end.

Fixpoint hex_digits_value (s : string) (acc : N) : option N :=
  match s with
  | EmptyString => Some acc
  | String c s' =>
      match hex_value c with
      | Some d => hex_digits_value s' (acc * 16 + d)%N
      | None => None
      end
  end.

(** Thirty-two hexadecimal digits, hyphens ignored. *)
Definition hex_UUID (s : string) : option uuid :=
  let hex := remove_hyphens s in
  if Nat.eqb (String.length hex) 32 then hex_digits_value hex 0%N else None.

(** Printing, as PostgreSQL shows a value stored in a text column. *)
Fixpoint fixed_digits (width : nat) (z : Z) (acc : string) : string :=
  match width with
  | O => acc
  | S w =>
      fixed_digits w (z / 10)%Z
        (String (ascii_of_nat (48 + Z.to_nat (z mod 10))) acc)
  end.

Fixpoint count_digits (fuel : nat) (z : Z) : nat :=
  match fuel with
  | O => 1
  | S f => if (z <? 10)%Z then 1 else S (count_digits f (z / 10)%Z)
  end.

Definition show_Z (z : Z) : string :=
  let a := Z.abs z in
  let digits := fixed_digits (count_digits (Z.to_nat (Z.log2 a)) a) a "" in
  if (z <? 0)%Z then String "-" digits else digits.

Definition show_numeric (n : numeric) : string :=
  let a := Z.abs n in
  let text := (show_Z (a / 100) ++ "." ++ fixed_digits 2 (a mod 100) "")%string in
  if (n <? 0)%Z then String "-" text else text.

Definition hex_char (d : N) : ascii :=
  if (d <? 10)%N then ascii_of_nat (48 + N.to_nat d) else ascii_of_nat (87 + N.to_nat d).

Fixpoint hex_digits (width : nat) (n : N) (acc : string) : string :=
  match width with
  | O => acc
  | S w => hex_digits w (n / 16)%N (String (hex_char (n mod 16)) acc)
  end.

Definition show_uuid (u : uuid) : string :=
  let hex := hex_digits 32 u "" in
  (substring 0 8 hex ++ "-" ++ substring 8 4 hex ++ "-" ++ substring 12 4 hex
   ++ "-" ++ substring 16 4 hex ++ "-" ++ substring 20 12 hex)%string.

(** The day of the proleptic Gregorian calendar that is the given number
    of days after 1970-01-01. *)
Definition civil_from_days (days : Z) : Z * Z * Z :=
  (let z := days + 719468 in
   let era := z / 146097 in
   let doe := z - era * 146097 in
   let yoe := (doe - doe / 1460 + doe / 36524 - doe / 146096) / 365 in
   let doy := doe - (365 * yoe + yoe / 4 - yoe / 100) in
   let mp := (5 * doy + 2) / 153 in
   let d := doy - (153 * mp + 2) / 5 + 1 in
   let m := if mp <? 10 then mp + 3 else mp - 9 in
   let y := yoe + era * 400 in
   (if m <=? 2 then y + 1 else y, m, d))%Z.

Definition show_date (d : date) : string :=
  let '(y, m, day) := civil_from_days d in
  (fixed_digits 4 y "" ++ "-" ++ fixed_digits 2 m "" ++ "-"
   ++ fixed_digits 2 day "")%string.

Definition show_timestamp (t : timestamp) : string :=
  let seconds := (t mod 86400)%Z in
  (show_date (date_of_timestamp t) ++ " "
   ++ fixed_digits 2 (seconds / 3600) "" ++ ":"
   ++ fixed_digits 2 ((seconds / 60) mod 60) "" ++ ":"
   ++ fixed_digits 2 (seconds mod 60) "")%string.

Definition show_cell (c : cell) : string :=
  match c with
  | cell_uuid u => show_uuid u
  | cell_text s => s
  | cell_timestamp t => show_timestamp t
  | cell_integer z => show_Z z
  | cell_numeric n => show_numeric n
  end.

Definition or_zero {A : Type} (zero : A) (x : option A) : A :=
  match x with Some a => a | None => zero end.

(** The conversions of the example library: a text is read with the
    parsers above, a number is rounded or scaled, every value is printed
    into a text column.  For the pairs PostgreSQL has no conversion for it
    rejects the statement, which is for the fault plan to say; the
    instance gives zero there. *)
Definition iso_library : Library :=
  {| to_datetime := iso_to_datetime;
     to_numeric := plain_to_numeric;
     UUID := hex_UUID;
     pg_uuid := fun c =>
       match c with cell_text s => or_zero 0%N (hex_UUID s) | _ => 0%N end;
     pg_text := show_cell;
     pg_date := fun c =>
       match c with cell_text s => or_zero 0%Z (parse_date s) | _ => 0%Z end;
     pg_timestamp := fun c =>
       match c with
       | cell_text s => or_zero 0%Z (iso_to_datetime None s)
       | _ => 0%Z
       end;
     pg_integer := fun c =>
       match c with
       | cell_text s => or_zero 0%Z (decimal s)
       | cell_numeric n => ((n + 50) / 100)%Z
       | _ => 0%Z
       end;
     pg_numeric := fun c =>
       match c with
       | cell_text s => or_zero 0%Z (plain_to_numeric s)
       | cell_integer z => (z * 100)%Z
       | _ => 0%Z
       end |}.

(** ** Sample records and stores *)

Definition alice_id : string := "00000000-0000-0000-0000-00000000000a".
Definition bob_id : string := "00000000-0000-0000-0000-00000000000b".

Definition sample (customer name transaction day cur amt : string) : Transaction :=
  {| keys := insert_columns;
     customerId := customer; customerName := name;
     transactionId := transaction; transactionDate := day;
     sourceDate := "2024-02-01T09:30:00"; merchantId := 17%Z; categoryId := 3%Z;
     currency := cur; amount := amt; description := "card payment" |}.

(** Two records with the same [(transactionId, customerId)] and different
    amounts. *)
Definition coffee : Transaction :=
  sample alice_id "Alice" "00000000-0000-0000-0000-000000000005" "2023-11-21" "EUR" "3.50".
Definition coffee_again : Transaction :=
  sample alice_id "Alice" "00000000-0000-0000-0000-000000000005" "2023-11-21" "EUR" "35.00".

(** A record in an unlisted currency and one with a malformed date. *)
Definition lunch_cad : Transaction :=
  sample bob_id "Bob" "00000000-0000-0000-0000-000000000006" "2023-12-05" "CAD" "12.00".
Definition slash_date : Transaction :=
  sample bob_id "Bob" "00000000-0000-0000-0000-000000000007" "21/11/2023" "USD" "12.00".

(** A record whose currency is a listed code in lower case. *)
Definition lower_case_eur : Transaction :=
  sample bob_id "Bob" "00000000-0000-0000-0000-00000000000c" "2023-12-05" "eur" "12.00".

(** A record with a listed currency and a well-formed date whose
    [customerId] is not a UUID. *)
Definition unreadable_id : Transaction :=
  sample "n/a" "Dan" "00000000-0000-0000-0000-00000000000d" "2023-12-05" "USD" "12.00".

(** The record [coffee] as an object that lists [transactionId] where
    the [INSERT] has [customerId], and [customerId] where it has
    [transactionId]. *)
Definition coffee_other_order : Transaction :=
  {| keys := [ col_transactionId; col_customerName; col_customerId;
               col_transactionDate; col_sourceDate; col_merchantId;
               col_categoryId; col_currency; col_amount; col_description ];
     customerId := alice_id; customerName := "Alice";
     transactionId := "00000000-0000-0000-0000-000000000005";
     transactionDate := "2023-11-21"; sourceDate := "2024-02-01T09:30:00";
     merchantId := 17%Z; categoryId := 3%Z; currency := "EUR"; amount := "3.50";
     description := "card payment" |}.

(** Alice's transactions of 2024-01-01 and of 2023-06-01. *)
Definition new_year : Transaction :=
  sample alice_id "Alice" "00000000-0000-0000-0000-000000000008" "2024-01-01" "GBP" "20.00".
Definition last_june : Transaction :=
  sample alice_id "Alice" "00000000-0000-0000-0000-000000000009" "2023-06-01" "GBP" "8.25".

(** A store without relations, and one with the three relations empty. *)
Definition blank_store : Database := mkDatabase None None None.
Definition empty_store : Database := mkDatabase (Some []) (Some []) (Some []).

(** Typed rows of one customer under two names, and of one transaction
    submitted twice with different columns. *)
Definition typed (customer transaction : uuid) (name : string) (day : date)
    (amt : numeric) : TransactionRow :=
  {| t_customerId := customer; t_customerName := name;
     t_transactionId := transaction; t_transactionDate := day;
     t_sourceDate := (day * 86400 + 3600)%Z; t_merchantId := 17%Z;
     t_categoryId := 3%Z;
     t_currency := "EUR"; t_amount := amt; t_description := "card payment" |}.

Definition first_row : TransactionRow := typed 10%N 1%N "Alice" 19700%Z 350%Z.
Definition second_row : TransactionRow := typed 10%N 2%N "Alicia" 19800%Z 990%Z.
Definition first_row_resubmitted : TransactionRow :=
  typed 10%N 1%N "Alice A." 19750%Z 3500%Z.

(** ** Notions used in the statements and proofs *)

Section RowWise.

Context {lib : Library}.

(** The entry of each condition of [data_quality_checks] at one row. *)
Definition currency_allowed (row : nat * Transaction) : bool :=
  existsb (String.eqb (currency (snd row))) allowable_currencies.

Definition date_parses (row : nat * Transaction) : bool :=
  match to_datetime (Some "%Y-%m-%d") (transactionDate (snd row)) with
  | Some _ => true
  | None => false
  end.

Definition group_of (df : DataFrame) (row : nat * Transaction) : DataFrame :=
  filter (fun other => group_key_eqb (group_key (snd other)) (group_key (snd row))) df.

Definition one_transactionId (df : DataFrame) (row : nat * Transaction) : bool :=
  Nat.eqb (nunique (column transactionId (group_of df row))) 1.

Definition passes (df : DataFrame) (row : nat * Transaction) : bool :=
  currency_allowed row && date_parses row && one_transactionId df row.

Definition fails (df : DataFrame) (row : nat * Transaction) : bool :=
  negb (currency_allowed row) || negb (date_parses row)
  || negb (one_transactionId df row).

(** The two conditions that depend on the row alone. *)
Definition accepts (row : nat * Transaction) : bool :=
  currency_allowed row && date_parses row.

End RowWise.

(** No rollup date of [db] is missing or older in [db']. *)
Definition rollup_le (db db' : Database) : Prop :=
  forall customer d,
    rollup_date customer db = Some d ->
    exists d', rollup_date customer db' = Some d' /\ (d <= d')%Z.

(** The transaction of [cursor'] continues that of [cursor]. *)
Definition same_durable (cursor cursor' : Connection) : Prop :=
  durable cursor' = durable cursor.

Definition stays_failed (cursor cursor' : Connection) : Prop :=
  durable cursor' = durable cursor /\ (failed cursor = true -> failed cursor' = true).

Definition rollup_grows (cursor cursor' : Connection) : Prop :=
  durable cursor' = durable cursor /\ rollup_le (working cursor) (working cursor').

(** The server refused the statement: it rejected it, or the transaction
    had failed before. *)
Definition refused_by_server (e : exn) : Prop :=
  e = DatabaseError \/ e = InFailedSqlTransaction.

(** Applying the rows of a batch one after the other. *)
Definition upsert_transactions (rows : list TransactionRow)
    (table : list TransactionRow) : list TransactionRow :=
  fold_left (fun t r => upsert_transaction r t) rows table.

Definition upsert_customers (rows : list CustomerRow)
    (table : list CustomerRow) : list CustomerRow :=
  fold_left (fun t r => upsert_customer r t) rows table.

(** Sample fault plans and runs: binding the first transaction row raises
    in the client; the server rejects the second [CREATE TABLE]; the server
    rejects the second customer row. *)
Definition client_fault : Faults := mkFaults false None (Some (client_error 0)) None None.
Definition customer_rejected : Faults :=
  mkFaults false None None (Some (server_error 1)) None.

Definition client_fault_run : Result :=
  main (lib := iso_library) [coffee; lunch_cad] client_fault empty_store.

(** The test [sink_lines] filters with. *)
Definition is_sink_line (l : line) : bool :=
  existsb (String.eqb (fst l)) sink_messages.

(** Two customer tables that give every customer the same rollup date. *)
Definition rollup_dates_agree (t1 t2 : list CustomerRow) : Prop :=
  forall customer,
    option_map c_transactionDate (rollup_of customer t1)
    = option_map c_transactionDate (rollup_of customer t2).

(** Nothing of [db] is missing from [db']: a relation that exists still
    exists, every key of [transactions_table] and every customer of
    [customer_table] is still there, and the error log has only grown at
    its end. *)
Definition never_deleted (db db' : Database) : Prop :=
  (transactions_table db <> None -> transactions_table db' <> None)
  /\ (customer_table db <> None -> customer_table db' <> None)
  /\ (error_log_table db <> None -> error_log_table db' <> None)
  /\ (forall key, In key (map transaction_key (rows_of (transactions_table db))) ->
                  In key (map transaction_key (rows_of (transactions_table db'))))
  /\ (forall customer, In customer (map c_customerId (rows_of (customer_table db))) ->
                       In customer (map c_customerId (rows_of (customer_table db'))))
  /\ (exists added,
        rows_of (error_log_table db') = rows_of (error_log_table db) ++ added).

Definition nothing_deleted (cursor cursor' : Connection) : Prop :=
  durable cursor' = durable cursor
  /\ never_deleted (working cursor) (working cursor').

(** Both primary keys hold in a store. *)
Definition pkeys_hold (db : Database) : Prop :=
  transactions_pkey (rows_of (transactions_table db))
  /\ customer_pkey (rows_of (customer_table db)).

Definition pkeys_kept (cursor cursor' : Connection) : Prop :=
  durable cursor' = durable cursor
  /\ (pkeys_hold (working cursor) -> pkeys_hold (working cursor')).

(** Every stored transaction belongs to a customer of [customer_table]. *)
Definition customers_cover (db : Database) : Prop :=
  forall r, In r (rows_of (transactions_table db)) ->
            In (t_customerId r) (map c_customerId (rows_of (customer_table db))).

(** The relations a statement does not write to are as they were. *)
Definition writes_only (st : statement) (db db' : Database) : Prop :=
  match st with
  | CreateTransactionsTable | InsertTransaction _ =>
      customer_table db' = customer_table db
      /\ error_log_table db' = error_log_table db
  | CreateCustomerTable | InsertCustomer _ =>
      transactions_table db' = transactions_table db
      /\ error_log_table db' = error_log_table db
  | CreateErrorLogTable | InsertErrorLog _ =>
      transactions_table db' = transactions_table db
      /\ customer_table db' = customer_table db
  end.

(** The three relations exist. *)
Definition schema_ready (db : Database) : Prop :=
  transactions_table db <> None /\ customer_table db <> None
  /\ error_log_table db <> None.

(** * Theorems *)

(** ** Boolean Series and selection *)

Lemma series_zip_map (A : Type) (op : bool -> bool -> bool) (f g : A -> bool)
    (l : list A) :
  series_zip op (map f l) (map g l) = map (fun x => op (f x) (g x)) l.
Proof.
  induction l as [|x l IH]; simpl; [reflexivity|].
  now rewrite IH.
Qed.

Lemma select_map (A : Type) (f : A -> bool) (l : list A) :
  select l (map f l) = filter f l.
Proof.
  induction l as [|x l IH]; simpl; [reflexivity|].
  rewrite IH. reflexivity.
Qed.

Lemma filter_negb_partition (A : Type) (f g : A -> bool) (l : list A) :
  (forall x, In x l -> g x = negb (f x)) ->
  Permutation (filter f l ++ filter g l) l.
Proof.
  induction l as [|x l IH]; intros Hg; simpl; [constructor|].
  rewrite (Hg x (or_introl eq_refl)).
  assert (IH' : Permutation (filter f l ++ filter g l) l)
    by (apply IH; intros y Hy; apply Hg; now right).
  destruct (f x); simpl.
  - now constructor.
  - apply Permutation_sym, Permutation_cons_app, Permutation_sym, IH'.
Qed.

Lemma pd_DataFrame_labels (records : list Transaction) :
  map fst (pd_DataFrame records) = seq 0 (length records).
Proof.
  unfold pd_DataFrame.
  generalize 0 as start.
  induction records as [|r records IH]; intros start; simpl; [reflexivity|].
  now rewrite IH.
Qed.

Lemma pd_DataFrame_length (records : list Transaction) :
  length (pd_DataFrame records) = length records.
Proof.
  rewrite <- (length_map fst), pd_DataFrame_labels. apply length_seq.
Qed.

(** ** data_quality_checks, row by row *)

Section ValidatorFacts.

Context {lib : Library}.

Lemma nodup_constant (v : string) (l : list string) :
  l <> [] -> (forall x, In x l -> x = v) -> nodup string_dec l = [v].
Proof.
  induction l as [|x l IH]; intros Hne Hall; [now elim Hne|].
  assert (x = v) by (apply Hall; now left). subst x.
  simpl. destruct (in_dec string_dec v l) as [Hin|Hnot].
  - apply IH.
    + intros ->. contradiction.
    + intros y Hy. apply Hall. now right.
  - destruct l as [|y l]; [reflexivity|].
    elim Hnot. left. apply Hall. right. now left.
Qed.

Lemma group_key_eqb_refl (k : string * string) : group_key_eqb k k = true.
Proof.
  unfold group_key_eqb. now rewrite !String.eqb_refl.
Qed.

(** Condition 3 holds at every row of every frame: the rows of a group
    share their [transactionId], so the group has one distinct value. *)
Lemma one_transactionId_always (df : DataFrame) (row : nat * Transaction) :
  In row df -> one_transactionId df row = true.
Proof.
  intros Hin. unfold one_transactionId, nunique.
  rewrite (@nodup_constant (transactionId (snd row))).
  - reflexivity.
  - intros Hnil.
    assert (Hg : In row (group_of df row)).
    { apply filter_In. split; [assumption|apply group_key_eqb_refl]. }
    unfold column in Hnil. apply map_eq_nil in Hnil.
    rewrite Hnil in Hg. contradiction.
  - intros x Hx. unfold column in Hx. apply in_map_iff in Hx.
    destruct Hx as [other [<- Hother]].
    apply filter_In in Hother. destruct Hother as [_ Hkey].
    unfold group_key_eqb, group_key in Hkey. simpl in Hkey.
    apply andb_true_iff in Hkey. destruct Hkey as [Hkey _].
    now apply String.eqb_eq in Hkey.
Qed.

Lemma data_quality_checks_rows (df : DataFrame) :
  data_quality_checks df = inr (filter (passes df) df, filter (fails df) df).
Proof.
  unfold data_quality_checks, pd_to_datetime, isin, notna, column,
    groupby_transform_nunique, series_and, series_or, series_not.
  rewrite !map_map.
  rewrite !series_zip_map.
  rewrite !select_map.
  reflexivity.
Qed.

Lemma fails_negb_passes (df : DataFrame) (row : nat * Transaction) :
  fails df row = negb (passes df row).
Proof.
  unfold fails, passes.
  now destruct (currency_allowed row), (date_parses row), (one_transactionId df row).
Qed.

End ValidatorFacts.

(** ** The validator *)

Section ValidatorTheorems.

Context {lib : Library}.

(** C4, as the code has it. Partition totality and disjointness, for a
    batch that is not empty: the two outputs of [data_quality_checks] on
    the loaded frame have lengths that add up to the length of the batch,
    together they hold exactly the rows of the batch, no index label (the
    identity of a record) occurs twice among them, and so every row of the
    batch is in exactly one of the two. *)
Theorem partition_total_and_disjoint (batch : list Transaction) :
  batch <> [] ->
  exists accepted rejected,
    data_quality_checks_loaded (load_data_from_json batch) = inr (accepted, rejected)
    /\ length accepted + length rejected = length batch
    /\ Permutation (accepted ++ rejected) (pd_DataFrame batch)
    /\ NoDup (map fst (accepted ++ rejected))
    /\ (forall label, ~ (In label (map fst accepted) /\ In label (map fst rejected)))
    /\ (forall row, In row (pd_DataFrame batch) ->
          (In row accepted /\ ~ In row rejected)
          \/ (In row rejected /\ ~ In row accepted)).
Proof.
  intros Hne.
  assert (Hload : load_data_from_json batch = Some (pd_DataFrame batch))
    by (destruct batch; [now elim Hne|reflexivity]).
  rewrite Hload. unfold data_quality_checks_loaded.
  set (df := pd_DataFrame batch).
  exists (filter (passes df) df), (filter (fails df) df).
  assert (Hperm : Permutation (filter (passes df) df ++ filter (fails df) df) df).
  { apply filter_negb_partition. intros row _. apply fails_negb_passes. }
  assert (Hnodup : NoDup (map fst (filter (passes df) df ++ filter (fails df) df))).
  { apply (Permutation_NoDup (l := map fst df)).
    - apply Permutation_sym, Permutation_map, Hperm.
    - unfold df. rewrite pd_DataFrame_labels. apply seq_NoDup. }
  assert (Hdisjoint : forall label,
             ~ (In label (map fst (filter (passes df) df))
                /\ In label (map fst (filter (fails df) df)))).
  { intros label [Ha Hr]. rewrite map_app in Hnodup.
    apply in_split in Ha. destruct Ha as [l1 [l2 Ha]].
    rewrite Ha in Hnodup. rewrite <- app_assoc in Hnodup. simpl in Hnodup.
    apply NoDup_remove_2 in Hnodup. apply Hnodup.
    apply in_or_app. right. apply in_or_app. now right. }
  repeat split.
  - apply data_quality_checks_rows.
  - rewrite <- length_app, (Permutation_length Hperm). apply pd_DataFrame_length.
  - exact Hperm.
  - exact Hnodup.
  - exact Hdisjoint.
  - intros row Hrow.
    destruct (passes df row) eqn:Hp.
    + left. split.
      * apply filter_In. now split.
      * intros Hr. apply filter_In in Hr. destruct Hr as [_ Hr].
        rewrite fails_negb_passes, Hp in Hr. discriminate.
    + right. split.
      * apply filter_In. split; [assumption|].
        now rewrite fails_negb_passes, Hp.
      * intros Ha. apply filter_In in Ha. destruct Ha as [_ Ha]. congruence.
Qed.

(** C6. Currency allow-list: a row whose currency is not exactly one of
    EUR, GBP, USD is in the rejected output and not in the accepted one,
    whatever its other fields and whatever the rest of the batch. *)
Theorem currency_outside_list_rejected (df : DataFrame) (row : nat * Transaction) :
  In row df ->
  currency (snd row) <> "EUR" ->
  currency (snd row) <> "GBP" ->
  currency (snd row) <> "USD" ->
  exists accepted rejected,
    data_quality_checks df = inr (accepted, rejected)
    /\ In row rejected /\ ~ In row accepted.
Proof.
  intros Hin Heur Hgbp Husd.
  assert (Hc : currency_allowed row = false).
  { unfold currency_allowed, allowable_currencies. simpl.
    apply String.eqb_neq in Heur, Hgbp, Husd.
    now rewrite Heur, Hgbp, Husd. }
  exists (filter (passes df) df), (filter (fails df) df).
  split; [apply data_quality_checks_rows|]. split.
  - apply filter_In. split; [assumption|].
    unfold fails. now rewrite Hc.
  - intros Ha. apply filter_In in Ha. destruct Ha as [_ Ha].
    unfold passes in Ha. rewrite Hc in Ha. discriminate.
Qed.

(** C7. The date rule is a total predicate: [data_quality_checks] raises
    on no frame, and a row whose [transactionDate] does not parse under
    the format [%Y-%m-%d] is in the rejected output and not in the
    accepted one. *)
Theorem unparsable_date_rejected_without_raising (df : DataFrame) :
  exists accepted rejected,
    data_quality_checks df = inr (accepted, rejected)
    /\ forall row,
         In row df ->
         to_datetime (Some "%Y-%m-%d") (transactionDate (snd row)) = None ->
         In row rejected /\ ~ In row accepted.
Proof.
  exists (filter (passes df) df), (filter (fails df) df).
  split; [apply data_quality_checks_rows|].
  intros row Hin Hnat.
  assert (Hd : date_parses row = false) by (unfold date_parses; now rewrite Hnat).
  split.
  - apply filter_In. split; [assumption|].
    unfold fails. rewrite Hd. simpl. apply orb_true_iff. left. apply orb_true_r.
  - intros Ha. apply filter_In in Ha. destruct Ha as [_ Ha].
    unfold passes in Ha. rewrite Hd, andb_false_r in Ha. discriminate.
Qed.

(** The duplicate check cannot fail: condition 3 is [True] at every row. *)
Lemma condition3_all_true (df : DataFrame) :
  map (fun n => Nat.eqb n 1) (groupby_transform_nunique df) = map (fun _ => true) df.
Proof.
  unfold groupby_transform_nunique. rewrite map_map.
  apply map_ext_in. intros row Hrow.
  exact (one_transactionId_always df row Hrow).
Qed.

(** Rows that share their key are accepted as soon as their currency and
    date are good. *)
Lemma duplicates_accepted (df : DataFrame) (row : nat * Transaction) :
  In row df ->
  currency_allowed row = true -> date_parses row = true ->
  exists accepted rejected,
    data_quality_checks df = inr (accepted, rejected)
    /\ In row accepted /\ ~ In row rejected.
Proof.
  intros Hin Hc Hd.
  assert (Hp : passes df row = true).
  { unfold passes. now rewrite Hc, Hd, one_transactionId_always. }
  exists (filter (passes df) df), (filter (fails df) df).
  split; [apply data_quality_checks_rows|]. split.
  - apply filter_In. now split.
  - intros Hr. apply filter_In in Hr. destruct Hr as [_ Hr].
    rewrite fails_negb_passes, Hp in Hr. discriminate.
Qed.

End ValidatorTheorems.

(** C4, the counterexample. The frame loaded from the empty batch has no
    columns: [data_quality_checks] raises on it and returns no outputs. *)
Lemma empty_batch_raises :
  data_quality_checks_loaded (lib := iso_library) (load_data_from_json [])
  = inl KeyError
  /\ ~ (exists accepted rejected,
          data_quality_checks_loaded (lib := iso_library) (load_data_from_json [])
          = inr (accepted, rejected)).
Proof.
  split; [reflexivity|].
  intros [accepted [rejected H]]. discriminate H.
Qed.

(** C4 on a batch with an accepted and two rejected records. *)
Lemma partition_total_and_disjoint_witness :
  exists accepted rejected,
    data_quality_checks_loaded (lib := iso_library)
      (load_data_from_json [coffee; lunch_cad; slash_date]) = inr (accepted, rejected)
    /\ length accepted + length rejected = length [coffee; lunch_cad; slash_date]
    /\ Permutation (accepted ++ rejected) (pd_DataFrame [coffee; lunch_cad; slash_date])
    /\ NoDup (map fst (accepted ++ rejected))
    /\ (forall label, ~ (In label (map fst accepted) /\ In label (map fst rejected)))
    /\ (forall row, In row (pd_DataFrame [coffee; lunch_cad; slash_date]) ->
          (In row accepted /\ ~ In row rejected)
          \/ (In row rejected /\ ~ In row accepted)).
Proof.
  apply (@partition_total_and_disjoint iso_library [coffee; lunch_cad; slash_date]).
  discriminate.
Defined.

(** C6 at a record in Canadian dollars. *)
Lemma currency_outside_list_rejected_witness :
  exists accepted rejected,
    data_quality_checks (lib := iso_library)
      (pd_DataFrame [coffee; lunch_cad; slash_date]) = inr (accepted, rejected)
    /\ In (1, lunch_cad) rejected /\ ~ In (1, lunch_cad) accepted.
Proof.
  apply (@currency_outside_list_rejected iso_library
           (pd_DataFrame [coffee; lunch_cad; slash_date]) (1, lunch_cad)).
  - simpl. right. left. reflexivity.
  - simpl. discriminate.
  - simpl. discriminate.
  - simpl. discriminate.
Defined.

(** The allow-list is matched exactly: [eur] is rejected. *)
Example lower_case_currency_rejected :
  data_quality_checks (lib := iso_library) (pd_DataFrame [coffee; lower_case_eur])
  = inr ([(0, coffee)], [(1, lower_case_eur)]).
Proof.
  vm_compute. reflexivity.
Qed.

(** C1, the failing input. Two records with the same
    [(transactionId, customerId)] and different amounts, both with a listed
    currency and a well-formed date: [data_quality_checks] accepts both
    and rejects none. *)
Theorem duplicate_pair_both_accepted :
  group_key coffee = group_key coffee_again
  /\ data_quality_checks (lib := iso_library) (pd_DataFrame [coffee; coffee_again])
     = inr ([(0, coffee); (1, coffee_again)], []).
Proof.
  split; vm_compute; reflexivity.
Qed.

(** The record of scenario 5, dated 21/11/2023 with a listed currency, is
    rejected. *)
Example slash_date_rejected :
  data_quality_checks (lib := iso_library) (pd_DataFrame [coffee; slash_date])
  = inr ([(0, coffee)], [(1, slash_date)]).
Proof.
  vm_compute. reflexivity.
Qed.

(** C7 at the record of scenario 5. *)
Lemma unparsable_date_rejected_witness :
  exists accepted rejected,
    data_quality_checks (lib := iso_library) (pd_DataFrame [coffee; slash_date])
    = inr (accepted, rejected)
    /\ In (1, slash_date) rejected /\ ~ In (1, slash_date) accepted.
Proof.
  destruct (@unparsable_date_rejected_without_raising iso_library
              (pd_DataFrame [coffee; slash_date]))
    as [accepted [rejected [Hrun Hrows]]].
  exists accepted, rejected. split; [exact Hrun|].
  apply Hrows.
  - simpl. right. left. reflexivity.
  - vm_compute. reflexivity.
Defined.

(** ** The upsert into transactions_table *)

Lemma transaction_conflict_key (excluded existing : TransactionRow) :
  transaction_conflict excluded existing = true
  <-> transaction_key existing = transaction_key excluded.
Proof.
  unfold transaction_conflict, transaction_key. split.
  - intros H. apply andb_true_iff in H. destruct H as [H1 H2].
    apply N.eqb_eq in H1, H2. now rewrite H1, H2.
  - intros H. injection H as H1 H2. rewrite H1, H2, !N.eqb_refl. reflexivity.
Qed.

Lemma update_transaction_conflict (excluded existing : TransactionRow) :
  transaction_conflict excluded existing = true ->
  update_transaction excluded existing = excluded.
Proof.
  intros H. apply transaction_conflict_key in H. injection H as H1 H2.
  unfold update_transaction. rewrite H1, H2. now destruct excluded.
Qed.

Lemma update_transaction_key (excluded existing : TransactionRow) :
  transaction_key (update_transaction excluded existing) = transaction_key existing.
Proof. reflexivity. Qed.

Lemma facts_of_key (key : uuid * uuid) (r : TransactionRow) :
  has_key key r = true <-> transaction_key r = key.
Proof.
  destruct key as [c t]. unfold has_key, transaction_key. simpl. split.
  - intros H. apply andb_true_iff in H. destruct H as [H1 H2].
    apply N.eqb_eq in H1, H2. now subst.
  - intros H. injection H as H1 H2. subst. now rewrite !N.eqb_refl.
Qed.

Lemma has_key_self (r : TransactionRow) : has_key (transaction_key r) r = true.
Proof. now apply facts_of_key. Qed.

Lemma has_key_other (key : uuid * uuid) (r : TransactionRow) :
  transaction_key r <> key -> has_key key r = false.
Proof.
  intros Hne. destruct (has_key key r) eqn:E; [|reflexivity].
  apply facts_of_key in E. contradiction.
Qed.

Lemma facts_of_cons (key : uuid * uuid) (r : TransactionRow)
    (table : list TransactionRow) :
  facts_of key (r :: table)
  = if has_key key r then r :: facts_of key table else facts_of key table.
Proof. reflexivity. Qed.

Lemma facts_of_absent (key : uuid * uuid) (table : list TransactionRow) :
  ~ In key (map transaction_key table) -> facts_of key table = [].
Proof.
  induction table as [|x table IH]; intros Hnot; [reflexivity|].
  rewrite facts_of_cons, has_key_other.
  - apply IH. intros Hin. apply Hnot. simpl. now right.
  - intros Hx. apply Hnot. simpl. now left.
Qed.

Lemma no_conflict_absent (excluded : TransactionRow) (table : list TransactionRow) :
  existsb (transaction_conflict excluded) table = false
  <-> ~ In (transaction_key excluded) (map transaction_key table).
Proof.
  split.
  - intros H Hin. apply in_map_iff in Hin. destruct Hin as [x [Hk Hx]].
    assert (Ht : existsb (transaction_conflict excluded) table = true).
    { apply existsb_exists. exists x. split; [assumption|].
      now apply transaction_conflict_key. }
    congruence.
  - intros H. destruct (existsb (transaction_conflict excluded) table) eqn:E;
      [|reflexivity].
    apply existsb_exists in E. destruct E as [x [Hx Hc]].
    elim H. apply in_map_iff. exists x. split; [|assumption].
    now apply transaction_conflict_key.
Qed.

Lemma no_conflict_map_id (excluded : TransactionRow) (table : list TransactionRow) :
  existsb (transaction_conflict excluded) table = false ->
  map (fun existing =>
         if transaction_conflict excluded existing
         then update_transaction excluded existing else existing) table
  = table.
Proof.
  intros Hfree.
  rewrite (map_ext_in _ (fun existing => existing)); [apply map_id|].
  intros y Hy. destruct (transaction_conflict excluded y) eqn:Hy'; [|reflexivity].
  assert (existsb (transaction_conflict excluded) table = true)
    by (apply existsb_exists; now exists y).
  congruence.
Qed.

(** The keys of the table after an upsert: unchanged on a conflict, one
    more otherwise. *)
Lemma upsert_transaction_keys (excluded : TransactionRow) (table : list TransactionRow) :
  map transaction_key (upsert_transaction excluded table)
  = if existsb (transaction_conflict excluded) table
    then map transaction_key table
    else map transaction_key table ++ [transaction_key excluded].
Proof.
  unfold upsert_transaction.
  destruct (existsb (transaction_conflict excluded) table).
  - rewrite map_map. apply map_ext. intros x.
    now destruct (transaction_conflict excluded x).
  - now rewrite map_app.
Qed.

Lemma upsert_transaction_pkey (excluded : TransactionRow) (table : list TransactionRow) :
  transactions_pkey table -> transactions_pkey (upsert_transaction excluded table).
Proof.
  unfold transactions_pkey. intros H. rewrite upsert_transaction_keys.
  destruct (existsb (transaction_conflict excluded) table) eqn:E; [assumption|].
  apply no_conflict_absent in E.
  apply NoDup_app; [assumption|repeat constructor; intros []|].
  intros k Hk [Hin|[]]. subst k. contradiction.
Qed.

Lemma facts_of_updated (excluded : TransactionRow) (table : list TransactionRow) :
  transactions_pkey table ->
  existsb (transaction_conflict excluded) table = true ->
  facts_of (transaction_key excluded)
    (map (fun existing =>
            if transaction_conflict excluded existing
            then update_transaction excluded existing else existing) table)
  = [excluded].
Proof.
  unfold transactions_pkey.
  induction table as [|x table IH]; intros Hpk Hex; [discriminate|].
  rewrite map_cons in Hpk. apply NoDup_cons_iff in Hpk. destruct Hpk as [Hx Hpk].
  rewrite map_cons, facts_of_cons.
  destruct (transaction_conflict excluded x) eqn:Hc.
  - rewrite (update_transaction_conflict _ _ Hc), has_key_self. f_equal.
    assert (Hfree : existsb (transaction_conflict excluded) table = false).
    { apply no_conflict_absent. apply transaction_conflict_key in Hc.
      now rewrite <- Hc. }
    rewrite no_conflict_map_id by assumption.
    apply facts_of_absent. now apply no_conflict_absent.
  - simpl in Hex. rewrite Hc in Hex. simpl in Hex.
    rewrite has_key_other.
    + now apply IH.
    + intros Hk. apply transaction_conflict_key in Hk. congruence.
Qed.

Lemma facts_of_upsert_same (excluded : TransactionRow) (table : list TransactionRow) :
  transactions_pkey table ->
  facts_of (transaction_key excluded) (upsert_transaction excluded table) = [excluded].
Proof.
  intros Hpk. unfold upsert_transaction.
  destruct (existsb (transaction_conflict excluded) table) eqn:E.
  - now apply facts_of_updated.
  - unfold facts_of. rewrite filter_app. fold (facts_of (transaction_key excluded) table).
    rewrite facts_of_absent by now apply no_conflict_absent.
    simpl filter. now rewrite has_key_self.
Qed.

Lemma facts_of_upsert_other (key : uuid * uuid) (excluded : TransactionRow)
    (table : list TransactionRow) :
  transaction_key excluded <> key ->
  facts_of key (upsert_transaction excluded table) = facts_of key table.
Proof.
  intros Hne. unfold upsert_transaction.
  destruct (existsb (transaction_conflict excluded) table).
  - clear -Hne. induction table as [|x table IH]; [reflexivity|].
    rewrite map_cons, !facts_of_cons, IH.
    destruct (transaction_conflict excluded x) eqn:Hc; [|reflexivity].
    assert (Hx : transaction_key x <> key).
    { apply transaction_conflict_key in Hc. congruence. }
    rewrite update_transaction_conflict by assumption.
    now rewrite !has_key_other.
  - unfold facts_of. rewrite filter_app. simpl filter.
    rewrite has_key_other by assumption. apply app_nil_r.
Qed.

Lemma upsert_transaction_twice (excluded : TransactionRow) (table : list TransactionRow) :
  upsert_transaction excluded (upsert_transaction excluded table)
  = upsert_transaction excluded table.
Proof.
  assert (Hmap : forall t,
    map (fun existing =>
           if transaction_conflict excluded existing
           then update_transaction excluded existing else existing)
        (map (fun existing =>
           if transaction_conflict excluded existing
           then update_transaction excluded existing else existing) t)
    = map (fun existing =>
           if transaction_conflict excluded existing
           then update_transaction excluded existing else existing) t).
  { intros t. rewrite map_map. apply map_ext. intros x.
    destruct (transaction_conflict excluded x) eqn:Hc.
    - rewrite (update_transaction_conflict _ _ Hc).
      assert (Hs : transaction_conflict excluded excluded = true)
        by now apply transaction_conflict_key.
      rewrite Hs. now apply update_transaction_conflict.
    - now rewrite Hc. }
  assert (Hself : transaction_conflict excluded excluded = true)
    by now apply transaction_conflict_key.
  unfold upsert_transaction.
  destruct (existsb (transaction_conflict excluded) table) eqn:E.
  - assert (E' : existsb (transaction_conflict excluded)
              (map (fun existing =>
                 if transaction_conflict excluded existing
                 then update_transaction excluded existing else existing) table) = true).
    { apply existsb_exists in E. destruct E as [x [Hx Hc]].
      apply existsb_exists. exists excluded. split; [|assumption].
      apply in_map_iff. exists x. split; [|assumption].
      rewrite Hc. now apply update_transaction_conflict. }
    rewrite E'. apply Hmap.
  - rewrite existsb_app, E. simpl. rewrite Hself. simpl.
    rewrite map_app. simpl. rewrite Hself.
    rewrite (update_transaction_conflict _ _ Hself). f_equal.
    now apply no_conflict_map_id.
Qed.

(** C8. Idempotent last-write-wins upsert: on a table that respects its
    primary key, writing a record whose key is already stored adds no row
    and leaves exactly one row under that key, the record just submitted
    (every non-key column has the incoming value); writing the record a
    second time changes nothing; the primary key still holds. *)
Theorem upsert_overwrites_and_is_idempotent (table : list TransactionRow)
    (r : TransactionRow) :
  transactions_pkey table ->
  In (transaction_key r) (map transaction_key table) ->
  facts_of (transaction_key r) (upsert_transaction r table) = [r]
  /\ length (upsert_transaction r table) = length table
  /\ upsert_transaction r (upsert_transaction r table) = upsert_transaction r table
  /\ transactions_pkey (upsert_transaction r table).
Proof.
  intros Hpk Hin. repeat split.
  - now apply facts_of_upsert_same.
  - unfold upsert_transaction.
    destruct (existsb (transaction_conflict r) table) eqn:E.
    + apply length_map.
    + apply no_conflict_absent in E. contradiction.
  - apply upsert_transaction_twice.
  - now apply upsert_transaction_pkey.
Qed.

(** C8 on a table of two rows, the first of which is submitted again with
    other columns. *)
Lemma upsert_overwrites_and_is_idempotent_witness :
  facts_of (transaction_key first_row_resubmitted)
    (upsert_transaction first_row_resubmitted [first_row; second_row])
  = [first_row_resubmitted]
  /\ length (upsert_transaction first_row_resubmitted [first_row; second_row])
     = length [first_row; second_row]
  /\ upsert_transaction first_row_resubmitted
       (upsert_transaction first_row_resubmitted [first_row; second_row])
     = upsert_transaction first_row_resubmitted [first_row; second_row]
  /\ transactions_pkey
       (upsert_transaction first_row_resubmitted [first_row; second_row]).
Proof.
  apply (upsert_overwrites_and_is_idempotent
           (table := [first_row; second_row]) first_row_resubmitted).
  - unfold transactions_pkey. simpl.
    constructor.
    + simpl. intros [H|[]]. discriminate H.
    + constructor; [intros []|constructor].
  - simpl. left. reflexivity.
Defined.

(** ** The sinks on a healthy transaction *)

Lemma upsert_transactions_pkey (rows table : list TransactionRow) :
  transactions_pkey table -> transactions_pkey (upsert_transactions rows table).
Proof.
  unfold upsert_transactions. revert table.
  induction rows as [|r rows IH]; intros table Hpk; simpl; [assumption|].
  apply IH. now apply upsert_transaction_pkey.
Qed.

Lemma execute_batch_transactions (rows : list TransactionRow) (sent : nat)
    (d : Database) (table : list TransactionRow)
    (customers : option (list CustomerRow)) (errors : option (list ErrorLogRow)) :
  execute_batch None sent InsertTransaction rows
    (mkConnection d (mkDatabase (Some table) customers errors) false)
  = (mkConnection d
       (mkDatabase (Some (upsert_transactions rows table)) customers errors) false,
     None).
Proof.
  revert sent table.
  induction rows as [|r rows IH]; intros sent table; simpl; [reflexivity|].
  unfold cursor_execute. simpl. apply IH.
Qed.

Lemma execute_batch_customers (rows : list CustomerRow) (sent : nat)
    (d : Database) (table : list CustomerRow)
    (transactions : option (list TransactionRow))
    (errors : option (list ErrorLogRow)) :
  execute_batch None sent InsertCustomer rows
    (mkConnection d (mkDatabase transactions (Some table) errors) false)
  = (mkConnection d
       (mkDatabase transactions (Some (upsert_customers rows table)) errors) false,
     None).
Proof.
  revert sent table.
  induction rows as [|r rows IH]; intros sent table; simpl; [reflexivity|].
  unfold cursor_execute. simpl. apply IH.
Qed.

Lemma insert_into_transactions_table_ok (cursor : Connection)
    (table rows : list TransactionRow) :
  failed cursor = false ->
  transactions_table (working cursor) = Some table ->
  insert_into_transactions_table None cursor rows
  = (mkConnection (durable cursor)
       (mkDatabase (Some (upsert_transactions rows table))
                   (customer_table (working cursor))
                   (error_log_table (working cursor))) false,
     [("Transactions inserted or updated successfully!", None)]).
Proof.
  destruct cursor as [d [transactions customers errors] f]. simpl.
  intros -> ->. unfold insert_into_transactions_table.
  now rewrite execute_batch_transactions.
Qed.

Lemma insert_into_customer_table_ok (cursor : Connection)
    (table : list CustomerRow) (rows : list TransactionRow) :
  failed cursor = false ->
  customer_table (working cursor) = Some table ->
  insert_into_customer_table None cursor rows
  = (mkConnection (durable cursor)
       (mkDatabase (transactions_table (working cursor))
                   (Some (upsert_customers (map customer_columns rows) table))
                   (error_log_table (working cursor))) false,
     [("Customer records inserted or updated successfully!", None)]).
Proof.
  destruct cursor as [d [transactions customers errors] f]. simpl.
  intros -> ->. unfold insert_into_customer_table.
  now rewrite execute_batch_customers.
Qed.

Lemma facts_of_upsert_others (key : uuid * uuid) (rows table : list TransactionRow) :
  (forall r, In r rows -> transaction_key r <> key) ->
  facts_of key (upsert_transactions rows table) = facts_of key table.
Proof.
  unfold upsert_transactions. revert table.
  induction rows as [|r rows IH]; intros table Hne; simpl; [reflexivity|].
  rewrite IH by (intros x Hx; apply Hne; now right).
  apply facts_of_upsert_other. apply Hne. now left.
Qed.

(** C10. Several rows of one batch under the same key: the sink applies
    the rows in batch order, so the table it leaves is the fold of the
    upsert over the batch, it respects the primary key, and the one row it
    holds under a key is the last row of the batch with that key. *)
Theorem batch_rows_applied_in_order (cursor : Connection)
    (table before after : list TransactionRow) (last : TransactionRow) :
  failed cursor = false ->
  transactions_table (working cursor) = Some table ->
  transactions_pkey table ->
  (forall r, In r after -> transaction_key r <> transaction_key last) ->
  exists table',
    transactions_table
      (working (fst (insert_into_transactions_table None cursor
                       (before ++ last :: after)))) = Some table'
    /\ table' = upsert_transactions (before ++ last :: after) table
    /\ facts_of (transaction_key last) table' = [last]
    /\ transactions_pkey table'.
Proof.
  intros Hok Htable Hpk Hafter.
  exists (upsert_transactions (before ++ last :: after) table).
  rewrite (insert_into_transactions_table_ok _ _ Hok Htable). simpl.
  repeat split.
  - unfold upsert_transactions. rewrite fold_left_app. simpl.
    fold (upsert_transactions before table).
    fold (upsert_transactions after
            (upsert_transaction last (upsert_transactions before table))).
    rewrite facts_of_upsert_others by assumption.
    apply facts_of_upsert_same. now apply upsert_transactions_pkey.
  - now apply upsert_transactions_pkey.
Qed.

(** C10 on a batch that submits one transaction twice, with another
    transaction after it. *)
Lemma batch_rows_applied_in_order_witness :
  exists table',
    transactions_table
      (working (fst (insert_into_transactions_table None (connect empty_store)
                       ([first_row] ++ first_row_resubmitted :: [second_row]))))
    = Some table'
    /\ table' = upsert_transactions
                  ([first_row] ++ first_row_resubmitted :: [second_row]) []
    /\ facts_of (transaction_key first_row_resubmitted) table'
       = [first_row_resubmitted]
    /\ transactions_pkey table'.
Proof.
  apply (@batch_rows_applied_in_order (connect empty_store) []
           [first_row] [second_row] first_row_resubmitted).
  - reflexivity.
  - reflexivity.
  - constructor.
  - simpl. intros r [<-|[]]. discriminate.
Defined.

(** ** The upsert into customer_table *)

Lemma rollup_of_updated (r : CustomerRow) (customer : uuid) (table : list CustomerRow) :
  rollup_of customer
    (map (fun existing =>
            if customer_conflict r existing
            then update_customer r existing else existing) table)
  = if N.eqb (c_customerId r) customer
    then option_map (update_customer r) (rollup_of customer table)
    else rollup_of customer table.
Proof.
  unfold rollup_of, customer_conflict.
  induction table as [|x table IH]; simpl.
  - now destruct (N.eqb (c_customerId r) customer).
  - destruct (N.eqb_spec (c_customerId x) (c_customerId r)) as [Hxr|Hxr];
      destruct (N.eqb_spec (c_customerId r) customer) as [Hr|Hr];
      destruct (N.eqb_spec (c_customerId x) customer) as [Hx|Hx];
      simpl; try congruence;
      try (destruct (N.eqb_spec (c_customerId x) customer); congruence);
      rewrite IH; now destruct (N.eqb_spec (c_customerId r) customer).
Qed.

Lemma rollup_of_app_one (r : CustomerRow) (customer : uuid) (table : list CustomerRow) :
  rollup_of customer (table ++ [r])
  = match rollup_of customer table with
    | Some x => Some x
    | None => if N.eqb (c_customerId r) customer then Some r else None
    end.
Proof.
  unfold rollup_of.
  induction table as [|x table IH]; simpl; [reflexivity|].
  now destruct (N.eqb (c_customerId x) customer).
Qed.

Lemma rollup_of_customer (customer : uuid) (table : list CustomerRow) (x : CustomerRow) :
  rollup_of customer table = Some x -> c_customerId x = customer.
Proof.
  unfold rollup_of. intros H. apply find_some in H. destruct H as [_ H].
  now apply N.eqb_eq in H.
Qed.

Lemma rollup_of_conflict (r : CustomerRow) (table : list CustomerRow) :
  existsb (customer_conflict r) table = false ->
  rollup_of (c_customerId r) table = None.
Proof.
  intros H. unfold rollup_of.
  destruct (find (fun x => N.eqb (c_customerId x) (c_customerId r)) table) eqn:F;
    [|reflexivity].
  apply find_some in F.
  assert (existsb (customer_conflict r) table = true)
    by (apply existsb_exists; now exists c).
  congruence.
Qed.

Lemma rollup_of_no_conflict (r : CustomerRow) (table : list CustomerRow) :
  existsb (customer_conflict r) table = true ->
  rollup_of (c_customerId r) table <> None.
Proof.
  intros H F. apply existsb_exists in H. destruct H as [x [Hx Hc]].
  unfold rollup_of in F.
  apply (find_none _ _ F) in Hx. unfold customer_conflict in Hc. congruence.
Qed.

(** The rollup row of every customer after one upsert. *)
Lemma rollup_of_upsert (r : CustomerRow) (customer : uuid) (table : list CustomerRow) :
  rollup_of customer (upsert_customer r table)
  = if N.eqb (c_customerId r) customer
    then Some (mkCustomerRow customer (c_customerName r)
                 match rollup_of customer table with
                 | Some x => GREATEST (c_transactionDate r) (c_transactionDate x)
                 | None => c_transactionDate r
                 end)
    else rollup_of customer table.
Proof.
  unfold upsert_customer.
  destruct (existsb (customer_conflict r) table) eqn:E.
  - rewrite rollup_of_updated.
    destruct (N.eqb_spec (c_customerId r) customer) as [Hr|Hr]; [|reflexivity].
    subst customer.
    destruct (rollup_of (c_customerId r) table) as [x|] eqn:F.
    + simpl. unfold update_customer.
      now rewrite (rollup_of_customer _ _ F).
    + now apply rollup_of_no_conflict in E.
  - rewrite rollup_of_app_one.
    destruct (N.eqb_spec (c_customerId r) customer) as [Hr|Hr].
    + subst customer. rewrite (rollup_of_conflict _ _ E). now destruct r.
    + now destruct (rollup_of customer table).
Qed.

Lemma upsert_customer_agree (r : CustomerRow) (t1 t2 : list CustomerRow) :
  rollup_dates_agree t1 t2 ->
  rollup_dates_agree (upsert_customer r t1) (upsert_customer r t2).
Proof.
  intros H customer. rewrite !rollup_of_upsert.
  destruct (N.eqb (c_customerId r) customer); [|apply H].
  specialize (H customer).
  destruct (rollup_of customer t1), (rollup_of customer t2); simpl in *;
    congruence.
Qed.

Lemma upsert_customer_swap (a b : CustomerRow) (table : list CustomerRow) :
  rollup_dates_agree (upsert_customer a (upsert_customer b table))
                     (upsert_customer b (upsert_customer a table)).
Proof.
  intros customer. rewrite !rollup_of_upsert.
  destruct (N.eqb (c_customerId a) customer), (N.eqb (c_customerId b) customer);
    simpl; try reflexivity.
  unfold GREATEST. destruct (rollup_of customer table); f_equal; lia.
Qed.

Lemma upsert_customers_agree (rows : list CustomerRow) (t1 t2 : list CustomerRow) :
  rollup_dates_agree t1 t2 ->
  rollup_dates_agree (upsert_customers rows t1) (upsert_customers rows t2).
Proof.
  unfold upsert_customers. revert t1 t2.
  induction rows as [|r rows IH]; intros t1 t2 H; simpl; [assumption|].
  apply IH. now apply upsert_customer_agree.
Qed.

Lemma upsert_customers_permutation (rows rows' : list CustomerRow) :
  Permutation rows rows' ->
  forall table,
    rollup_dates_agree (upsert_customers rows table) (upsert_customers rows' table).
Proof.
  induction 1 as [|x l l' Hperm IH|x y l|l l' l'' H1 IH1 H2 IH2]; intros table.
  - intros customer. reflexivity.
  - apply IH.
  - unfold upsert_customers. simpl.
    apply (upsert_customers_agree l). apply upsert_customer_swap.
  - intros customer. now rewrite (IH1 table customer), (IH2 table customer).
Qed.

Lemma rollup_of_upsert_others (customer : uuid) (rows table : list CustomerRow) :
  (forall r, In r rows -> c_customerId r <> customer) ->
  rollup_of customer (upsert_customers rows table) = rollup_of customer table.
Proof.
  unfold upsert_customers. revert table.
  induction rows as [|r rows IH]; intros table Hne; simpl; [reflexivity|].
  rewrite IH by (intros x Hx; apply Hne; now right).
  rewrite rollup_of_upsert.
  destruct (N.eqb_spec (c_customerId r) customer) as [Hr|Hr]; [|reflexivity].
  elim (Hne r); [now left|assumption].
Qed.

(** C9, as the code has it. For two orders of the same accepted batch the
    customer sink leaves every customer with the same rollup date; the
    name it leaves for a customer is the name carried by the last row of
    that customer in the order applied. *)
Theorem rollup_date_order_independent (cursor : Connection)
    (table : list CustomerRow) (rows rows' : list TransactionRow) :
  failed cursor = false ->
  customer_table (working cursor) = Some table ->
  Permutation rows rows' ->
  (forall customer,
      rollup_date customer
        (working (fst (insert_into_customer_table None cursor rows)))
      = rollup_date customer
          (working (fst (insert_into_customer_table None cursor rows'))))
  /\ (forall before last after,
        rows = before ++ last :: after ->
        (forall r, In r after -> t_customerId r <> t_customerId last) ->
        option_map c_customerName
          (rollup_of (t_customerId last)
             (rows_of (customer_table
                (working (fst (insert_into_customer_table None cursor rows))))))
        = Some (t_customerName last)).
Proof.
  intros Hok Htable Hperm.
  rewrite !(insert_into_customer_table_ok _ _ Hok Htable). simpl.
  split.
  - intros customer. unfold rollup_date. simpl.
    apply upsert_customers_permutation. now apply Permutation_map.
  - intros before last after -> Hafter.
    rewrite map_app. simpl. unfold upsert_customers.
    rewrite fold_left_app. simpl.
    fold (upsert_customers (map customer_columns before) table).
    fold (upsert_customers (map customer_columns after)
            (upsert_customer (customer_columns last)
               (upsert_customers (map customer_columns before) table))).
    rewrite rollup_of_upsert_others.
    + rewrite rollup_of_upsert. simpl. now rewrite N.eqb_refl.
    + intros r Hr. apply in_map_iff in Hr. destruct Hr as [x [<- Hx]].
      simpl. now apply Hafter.
Qed.

(** C9 on the two rows of customer 10, in both orders. *)
Lemma rollup_date_order_independent_witness :
  (forall customer,
      rollup_date customer
        (working (fst (insert_into_customer_table None (connect empty_store)
                         [first_row; second_row])))
      = rollup_date customer
          (working (fst (insert_into_customer_table None (connect empty_store)
                           [second_row; first_row]))))
  /\ (forall before last after,
        [first_row; second_row] = before ++ last :: after ->
        (forall r, In r after -> t_customerId r <> t_customerId last) ->
        option_map c_customerName
          (rollup_of (t_customerId last)
             (rows_of (customer_table
                (working (fst (insert_into_customer_table None (connect empty_store)
                                 [first_row; second_row]))))))
        = Some (t_customerName last)).
Proof.
  apply (@rollup_date_order_independent (connect empty_store) []
           [first_row; second_row] [second_row; first_row]).
  - reflexivity.
  - reflexivity.
  - apply perm_swap.
Defined.

(** C9, the counterexample. Customer 10 has two accepted rows, named Alice
    and Alicia: the rollup row the sink leaves is not the same for the two
    orders of the batch. *)
Lemma rollup_row_depends_on_order :
  Permutation [first_row; second_row] [second_row; first_row]
  /\ rollup_of 10%N
       (rows_of (customer_table
          (working (fst (insert_into_customer_table None (connect empty_store)
                           [first_row; second_row])))))
     <> rollup_of 10%N
          (rows_of (customer_table
             (working (fst (insert_into_customer_table None (connect empty_store)
                              [second_row; first_row]))))).
Proof.
  split; [apply perm_swap|].
  vm_compute. discriminate.
Qed.

(** ** Invariants of a transaction *)

Lemma report_fst (ok err : string) (r : Connection * option exn) :
  fst (report ok err r) = fst r.
Proof. now destruct r as [c [e|]]. Qed.

Lemma report_snd (ok err : string) (r : Connection * option exn) :
  snd (report ok err r)
  = [match snd r with None => (ok, None) | Some e => (err, Some e) end].
Proof. now destruct r as [c [e|]]. Qed.

Section TransactionInvariant.

Context {lib : Library}.

(** A relation between the connection before and after, kept by every
    statement, is kept by every operation of the program. *)
Variable R : Connection -> Connection -> Prop.
Hypothesis R_refl : forall c, R c c.
Hypothesis R_trans : forall a b c, R a b -> R b c -> R a c.
Hypothesis R_step :
  forall rejected st c, R c (fst (cursor_execute rejected st c)).

Lemma and_then_kept (c0 : Connection) (r : Connection * option exn)
    (k : Connection -> Connection * option exn) :
  R c0 (fst r) -> (forall c, R c (fst (k c))) -> R c0 (fst (and_then r k)).
Proof.
  intros Hr Hk. destruct r as [c [e|]]; simpl in *; [assumption|].
  apply R_trans with c; [assumption|apply Hk].
Qed.

Lemma execute_batch_kept (A : Type) (flt : option fault) (sql : A -> statement)
    (argslist : list A) :
  forall sent c, R c (fst (execute_batch flt sent sql argslist c)).
Proof.
  induction argslist as [|args rest IH]; intros sent c; simpl; [apply R_refl|].
  destruct (client_raises flt sent); simpl; [apply R_refl|].
  apply and_then_kept; [apply R_step|apply IH].
Qed.

Lemma create_tables_kept (flt : option schema_fault) (c : Connection) :
  R c (fst (create_tables flt c)).
Proof.
  unfold create_tables. rewrite report_fst.
  apply and_then_kept; [apply R_step|]. intros c1.
  apply and_then_kept; [apply R_step|]. intros c2. apply R_step.
Qed.

Lemma insert_into_transactions_table_kept (flt : option fault) (c : Connection)
    (rows : list TransactionRow) :
  R c (fst (insert_into_transactions_table flt c rows)).
Proof.
  unfold insert_into_transactions_table. rewrite report_fst.
  apply execute_batch_kept.
Qed.

Lemma write_transactions_kept (flt : option fault) (c : Connection)
    (columns : list column_name) (rows : list TransactionRow) :
  R c (fst (write_transactions flt c columns rows)).
Proof.
  unfold write_transactions.
  destruct (transaction_parameters columns rows) as [parameters|];
    [apply insert_into_transactions_table_kept|apply R_refl].
Qed.

Lemma insert_into_customer_table_kept (flt : option fault) (c : Connection)
    (rows : list TransactionRow) :
  R c (fst (insert_into_customer_table flt c rows)).
Proof.
  unfold insert_into_customer_table. rewrite report_fst.
  apply execute_batch_kept.
Qed.

Lemma insert_into_error_log_table_kept (flt : option fault) (c : Connection)
    (failed_df : DataFrame) :
  R c (fst (insert_into_error_log_table flt c failed_df)).
Proof.
  unfold insert_into_error_log_table. rewrite report_fst.
  apply execute_batch_kept.
Qed.

End TransactionInvariant.

Lemma stays_failed_refl (c : Connection) : stays_failed c c.
Proof. split; auto. Qed.

Lemma stays_failed_trans (a b c : Connection) :
  stays_failed a b -> stays_failed b c -> stays_failed a c.
Proof.
  intros [H1 H2] [H3 H4]. split; [congruence|auto].
Qed.

Lemma stays_failed_step (rejected : bool) (st : statement) (c : Connection) :
  stays_failed c (fst (cursor_execute rejected st c)).
Proof.
  unfold cursor_execute. destruct (failed c) eqn:F.
  - simpl. split; auto.
  - destruct rejected; [split; simpl; auto|].
    destruct (exec_sql st (working c)); split; simpl; auto; congruence.
Qed.

(** A statement that raises leaves the transaction failed. *)
Lemma cursor_execute_raises (rejected : bool) (st : statement) (c : Connection)
    (e : exn) :
  snd (cursor_execute rejected st c) = Some e ->
  failed (fst (cursor_execute rejected st c)) = true /\ refused_by_server e.
Proof.
  unfold cursor_execute, refused_by_server. destruct (failed c) eqn:F; simpl.
  - intros [= <-]. auto.
  - destruct rejected; simpl; [intros [= <-]; auto|].
    destruct (exec_sql st (working c)); simpl; [discriminate|].
    intros [= <-]. auto.
Qed.

Lemma and_then_raises (r : Connection * option exn)
    (k : Connection -> Connection * option exn) (e : exn) :
  snd (and_then r k) = Some e ->
  snd r = Some e /\ fst (and_then r k) = fst r
  \/ snd r = None /\ snd (k (fst r)) = Some e /\ fst (and_then r k) = fst (k (fst r)).
Proof.
  destruct r as [c [e'|]]; simpl; intros H; [left|right]; auto.
Qed.

(** A sink whose exception comes from the server leaves the transaction
    failed. *)
Lemma execute_batch_refused (A : Type) (flt : option fault) (sql : A -> statement)
    (argslist : list A) (e : exn) :
  refused_by_server e ->
  forall sent c,
    snd (execute_batch flt sent sql argslist c) = Some e ->
    failed (fst (execute_batch flt sent sql argslist c)) = true.
Proof.
  intros He.
  induction argslist as [|args rest IH]; intros sent c; simpl; [discriminate|].
  destruct (client_raises flt sent); simpl.
  - intros [= <-]. destruct He; discriminate.
  - intros H. apply and_then_raises in H.
    destruct H as [[H1 H2]|[H1 [H2 H3]]].
    + rewrite H2. now apply cursor_execute_raises in H1.
    + rewrite H3. now apply IH.
Qed.


Lemma report_refused (ok err : string) (r : Connection * option exn)
    (msg : string) (e : exn) :
  (snd r = Some e -> failed (fst r) = true) ->
  In (msg, Some e) (snd (report ok err r)) ->
  failed (fst (report ok err r)) = true.
Proof.
  intros Hr Hin. rewrite report_fst. rewrite report_snd in Hin.
  destruct Hin as [Hin|[]].
  destruct (snd r) as [e'|]; [|discriminate].
  injection Hin as _ ->. now apply Hr.
Qed.

Lemma insert_into_transactions_table_refused (flt : option fault) (c : Connection)
    (rows : list TransactionRow) (msg : string) (e : exn) :
  refused_by_server e ->
  In (msg, Some e) (snd (insert_into_transactions_table flt c rows)) ->
  failed (fst (insert_into_transactions_table flt c rows)) = true.
Proof.
  intros He. apply report_refused. now apply execute_batch_refused.
Qed.

Lemma insert_into_customer_table_refused (flt : option fault) (c : Connection)
    (rows : list TransactionRow) (msg : string) (e : exn) :
  refused_by_server e ->
  In (msg, Some e) (snd (insert_into_customer_table flt c rows)) ->
  failed (fst (insert_into_customer_table flt c rows)) = true.
Proof.
  intros He. apply report_refused. now apply execute_batch_refused.
Qed.

Lemma insert_into_error_log_table_refused (flt : option fault) (c : Connection)
    (failed_df : DataFrame) (msg : string) (e : exn) :
  refused_by_server e ->
  In (msg, Some e) (snd (insert_into_error_log_table flt c failed_df)) ->
  failed (fst (insert_into_error_log_table flt c failed_df)) = true.
Proof.
  intros He. apply report_refused. now apply execute_batch_refused.
Qed.

Lemma create_tables_prints_no_sink_error (flt : option schema_fault)
    (c : Connection) (msg : string) (e : exn) :
  In msg sink_errors -> ~ In (msg, Some e) (snd (create_tables flt c)).
Proof.
  intros Hmsg Hin. unfold create_tables in Hin. rewrite report_snd in Hin.
  destruct Hin as [Hin|[]].
  match type of Hin with context [snd ?r] => destruct (snd r) end;
    injection Hin as <- _; simpl in Hmsg;
    repeat (destruct Hmsg as [Hmsg|Hmsg]; [discriminate|]); assumption.
Qed.

Section WriteTransactions.

Context {lib : Library}.

Lemma write_transactions_refused (flt : option fault) (c : Connection)
    (columns : list column_name) (rows : list TransactionRow) (msg : string)
    (e : exn) :
  refused_by_server e ->
  In (msg, Some e) (snd (write_transactions flt c columns rows)) ->
  failed (fst (write_transactions flt c columns rows)) = true.
Proof.
  intros He. unfold write_transactions.
  destruct (transaction_parameters columns rows) as [parameters|].
  - now apply insert_into_transactions_table_refused.
  - simpl. intros [H|[]]. injection H as _ <-. destruct He; discriminate.
Qed.

End WriteTransactions.

Lemma sink_lines_filter (r : Result) :
  sink_lines r = filter is_sink_line (stdout r).
Proof. reflexivity. Qed.

Lemma filter_head_false (A : Type) (f : A -> bool) (x : A) (l : list A) :
  f x = false -> filter f (x :: l) = filter f l.
Proof. intros H. simpl. now rewrite H. Qed.



Section WriteTransactionsLines.

Context {lib : Library}.



End WriteTransactionsLines.

Lemma create_tables_no_sink_line (flt : option schema_fault) (c : Connection) :
  filter is_sink_line (snd (create_tables flt c)) = [].
Proof.
  unfold create_tables. rewrite report_snd.
  match goal with |- context [snd ?r] => destruct (snd r) end; reflexivity.
Qed.

(** ** The rollup under statements *)

Lemma rollup_le_refl (db : Database) : rollup_le db db.
Proof. intros customer d H. exists d. split; [assumption|lia]. Qed.

Lemma rollup_le_trans (a b c : Database) :
  rollup_le a b -> rollup_le b c -> rollup_le a c.
Proof.
  intros H1 H2 customer d H.
  destruct (H1 _ _ H) as [d1 [Hd1 Hle1]].
  destruct (H2 _ _ Hd1) as [d2 [Hd2 Hle2]].
  exists d2. split; [assumption|lia].
Qed.

Lemma rows_of_if_not_exists (A : Type) (table : option (list A)) :
  rows_of (if_not_exists table) = rows_of table.
Proof. now destruct table. Qed.

Lemma exec_sql_rollup_le (st : statement) (db db' : Database) :
  exec_sql st db = Some db' -> rollup_le db db'.
Proof.
  destruct st; simpl.
  - intros [= <-]. intros customer d H. exists d. split; [exact H|lia].
  - intros [= <-]. intros customer d. unfold rollup_date. simpl.
    rewrite rows_of_if_not_exists. intros H. exists d. split; [assumption|lia].
  - intros [= <-]. intros customer d H. exists d. split; [exact H|lia].
  - destruct (transactions_table db); [|discriminate].
    intros [= <-]. intros customer d H. exists d. split; [exact H|lia].
  - destruct (customer_table db) as [table|] eqn:T; [|discriminate].
    intros [= <-]. intros customer d. unfold rollup_date. rewrite T. simpl.
    rewrite rollup_of_upsert.
    destruct (N.eqb (c_customerId r) customer).
    + destruct (rollup_of customer table) as [x|]; simpl; [|discriminate].
      intros [= <-]. eexists. split; [reflexivity|]. unfold GREATEST. lia.
    + intros H. exists d. split; [assumption|lia].
  - destruct (error_log_table db); [|discriminate].
    intros [= <-]. intros customer d H. exists d. split; [exact H|lia].
Qed.

Lemma rollup_grows_refl (c : Connection) : rollup_grows c c.
Proof. split; [reflexivity|apply rollup_le_refl]. Qed.

Lemma rollup_grows_trans (a b c : Connection) :
  rollup_grows a b -> rollup_grows b c -> rollup_grows a c.
Proof.
  intros [H1 H2] [H3 H4]. split; [congruence|].
  now apply rollup_le_trans with (working b).
Qed.

Lemma rollup_grows_step (rejected : bool) (st : statement) (c : Connection) :
  rollup_grows c (fst (cursor_execute rejected st c)).
Proof.
  unfold cursor_execute. destruct (failed c); [apply rollup_grows_refl|].
  destruct rejected; [split; [reflexivity|apply rollup_le_refl]|].
  destruct (exec_sql st (working c)) eqn:E; split; simpl; try reflexivity.
  - now apply exec_sql_rollup_le with st.
  - apply rollup_le_refl.
Qed.

(** ** main *)

Section PipelineTheorems.

Context {lib : Library}.

(** [main] with the result of each operation named. *)
Lemma main_steps (records : list Transaction) (flt : Faults) (db : Database) :
  main records flt db
  = if connect_fails flt
    then mkResult [("Error connecting to database:", Some OperationalError)] None db
    else
      let out0 := [("Connected to PostgreSQL database successfully!", None)] in
      let s1 := create_tables (create_tables_fault flt) (connect db) in
      match data_quality_checks_loaded (load_data_from_json records) with
      | inl e => mkResult (out0 ++ snd s1) (Some e) (close (fst s1))
      | inr (filtered_df, failed_df) =>
          match convert_types filtered_df with
          | inl e => mkResult (out0 ++ snd s1) (Some e) (close (fst s1))
          | inr rows =>
              let s2 := write_transactions (transactions_fault flt) (fst s1)
                          (DataFrame_columns records) rows in
              let s3 := insert_into_customer_table
                          (customer_fault flt) (fst s2) rows in
              let s4 := insert_into_error_log_table
                          (error_log_fault flt) (fst s3) failed_df in
              mkResult (out0 ++ snd s1 ++ snd s2 ++ snd s3 ++ snd s4) None
                       (commit (fst s4))
          end
      end.
Proof.
  unfold main. destruct (connect_fails flt); [reflexivity|].
  destruct (create_tables (create_tables_fault flt) (connect db)) as [c1 out1].
  destruct (data_quality_checks_loaded (load_data_from_json records))
    as [e|[filtered_df failed_df]]; [reflexivity|].
  destruct (convert_types filtered_df) as [e|rows]; [reflexivity|].
  cbn [fst snd].
  destruct (write_transactions (transactions_fault flt) c1
              (DataFrame_columns records) rows) as [c2 out2].
  cbn [fst snd].
  destruct (insert_into_customer_table (customer_fault flt) c2 rows) as [c3 out3].
  cbn [fst snd].
  destruct (insert_into_error_log_table (error_log_fault flt) c3 failed_df)
    as [c4 out4].
  reflexivity.
Qed.

(** The store after a run is the store before it, or what [commit] makes
    of a connection reached from [connect db] by statements. *)
Lemma main_store (R : Connection -> Connection -> Prop)
    (R_refl : forall c, R c c)
    (R_trans : forall a b c, R a b -> R b c -> R a c)
    (R_step : forall rejected st c, R c (fst (cursor_execute rejected st c)))
    (R_durable : forall a b, R a b -> durable b = durable a)
    (records : list Transaction) (flt : Faults) (db : Database) :
  store (main records flt db) = db
  \/ exists c, R (connect db) c /\ store (main records flt db) = commit c.
Proof.
  rewrite main_steps. destruct (connect_fails flt); [now left|].
  pose proof (create_tables_kept R R_trans R_step
                (create_tables_fault flt) (connect db)) as H1.
  cbv zeta.
  destruct (data_quality_checks_loaded (load_data_from_json records))
    as [e|[filtered_df failed_df]].
  - left. simpl. unfold close. now rewrite (R_durable _ _ H1).
  - destruct (convert_types filtered_df) as [e|rows].
    + left. simpl. unfold close. now rewrite (R_durable _ _ H1).
    + right. eexists. split; [|reflexivity].
      eapply R_trans; [exact H1|].
      eapply R_trans;
        [apply (write_transactions_kept R R_refl R_trans R_step)|].
      eapply R_trans;
        [apply (insert_into_customer_table_kept R R_refl R_trans R_step)|].
      apply (insert_into_error_log_table_kept R R_refl R_trans R_step).
Qed.

Lemma run_rollup_le (db : Database) (r : list Transaction * Faults) :
  rollup_le db (run db r).
Proof.
  unfold run.
  destruct (main_store rollup_grows rollup_grows_refl rollup_grows_trans
              rollup_grows_step (fun a b H => proj1 H) (fst r) (snd r) db)
    as [H|[c [[Hd Hw] H]]]; rewrite H.
  - apply rollup_le_refl.
  - unfold commit. simpl in Hd, Hw.
    destruct (failed c); [rewrite Hd; apply rollup_le_refl|exact Hw].
Qed.

(** C5. Rollup monotonicity: whatever runs came before, whatever the next
    run loads and whichever of its store operations fail, a customer that
    has a rollup date before the run has one after it, and it is not
    older. *)
Theorem rollup_date_never_reduced (rs : list (list Transaction * Faults))
    (r : list Transaction * Faults) (db : Database) (customer : uuid) (d : date) :
  rollup_date customer (runs rs db) = Some d ->
  exists d',
    rollup_date customer (run (runs rs db) r) = Some d' /\ (d <= d')%Z.
Proof.
  intros H. now apply (run_rollup_le (runs rs db) r).
Qed.

(** C2, as the code has it. When one of the three sinks reports an error
    that comes from the server (it rejected a statement, or the
    transaction had failed before), the commit that ends the run discards
    the transaction: the persistent store after the run is the store
    before it. *)
Theorem refused_write_rolls_back (records : list Transaction) (flt : Faults)
    (db : Database) (e : exn) :
  refused_by_server e ->
  sink_failed (main records flt db) e ->
  store (main records flt db) = db.
Proof.
  intros He [msg [Hmsg Hin]]. revert Hin. rewrite main_steps.
  destruct (connect_fails flt); [reflexivity|]. cbv zeta.
  pose proof (create_tables_kept stays_failed stays_failed_trans stays_failed_step
                (create_tables_fault flt) (connect db)) as [Hd1 _].
  destruct (data_quality_checks_loaded (load_data_from_json records))
    as [e0|[filtered_df failed_df]];
    [intros _; simpl; unfold close; now rewrite Hd1|].
  destruct (convert_types filtered_df) as [e0|rows];
    [intros _; simpl; unfold close; now rewrite Hd1|].
  set (s1 := create_tables (create_tables_fault flt) (connect db)) in *.
  set (s2 := write_transactions (transactions_fault flt) (fst s1)
               (DataFrame_columns records) rows).
  set (s3 := insert_into_customer_table (customer_fault flt) (fst s2) rows).
  set (s4 := insert_into_error_log_table (error_log_fault flt) (fst s3) failed_df).
  destruct (insert_into_customer_table_kept stays_failed stays_failed_refl
              stays_failed_trans stays_failed_step
              (customer_fault flt) (fst s2) rows) as [D3 F3].
  destruct (insert_into_error_log_table_kept stays_failed stays_failed_refl
              stays_failed_trans stays_failed_step
              (error_log_fault flt) (fst s3) failed_df) as [D4 F4].
  destruct (write_transactions_kept stays_failed stays_failed_refl
              stays_failed_trans stays_failed_step
              (transactions_fault flt) (fst s1) (DataFrame_columns records) rows)
    as [D2 _].
  fold s2 in D2, D3, F3. fold s3 in D3, F3, D4, F4. fold s4 in D4, F4.
  intros Hin.
  assert (F : failed (fst s4) = true).
  { simpl in Hin. destruct Hin as [Hin|Hin]; [discriminate|].
    apply in_app_or in Hin. destruct Hin as [Hin|Hin];
      [now apply create_tables_prints_no_sink_error in Hin|].
    apply in_app_or in Hin. destruct Hin as [Hin|Hin];
      [apply F4, F3; now apply (@write_transactions_refused _ _ _ _ _ _ _ He) in Hin|].
    apply in_app_or in Hin. destruct Hin as [Hin|Hin];
      [apply F4; now apply (@insert_into_customer_table_refused _ _ _ _ _ He) in Hin|].
    now apply (@insert_into_error_log_table_refused _ _ _ _ _ He) in Hin. }
  simpl. unfold commit. rewrite F, D4, D3, D2, Hd1. reflexivity.
Qed.

End PipelineTheorems.

Section SchemaFailure.

Context {lib : Library}.



End SchemaFailure.



(** C2, the counterexample. psycopg2 raises while it binds the first row
    of the transactions sink; the sink prints the error, the two other
    sinks write, and the run commits their rows: the store has changed. *)
Lemma client_side_failure_commits_the_rest :
  sink_failed client_fault_run ProgrammingError
  /\ store client_fault_run <> empty_store.
Proof.
  split.
  - exists "Error inserting or updating transactions:". split.
    + simpl. left. reflexivity.
    + vm_compute. right. right. left. reflexivity.
  - vm_compute. discriminate.
Qed.

(** C2 at a run whose customer sink has its second row rejected by the
    server. *)
Lemma refused_write_rolls_back_witness :
  store (main (lib := iso_library) [new_year; last_june] customer_rejected empty_store)
  = empty_store.
Proof.
  apply (@refused_write_rolls_back iso_library [new_year; last_june]
           customer_rejected empty_store DatabaseError).
  - left. reflexivity.
  - exists "Error inserting or updating customer records:". split.
    + simpl. right. left. reflexivity.
    + vm_compute. right. right. right. left. reflexivity.
Defined.

(** C5 at scenario 4: Alice's rollup date is 2024-01-01 (day 19723) after
    a first run; a second run loads her transaction of 2023-06-01. *)
Lemma rollup_date_never_reduced_witness :
  exists d',
    rollup_date 10%N
      (run (lib := iso_library)
         (runs (lib := iso_library) [([new_year], no_faults)] blank_store)
         ([last_june], no_faults)) = Some d'
    /\ (19723 <= d')%Z.
Proof.
  apply (@rollup_date_never_reduced iso_library [([new_year], no_faults)]
           ([last_june], no_faults) blank_store 10%N 19723%Z).
  vm_compute. reflexivity.
Defined.

(** Scenario 4 evaluated: the rollup date stays 2024-01-01. *)
Example rollup_date_scenario_4 :
  rollup_date 10%N
    (runs (lib := iso_library)
       [([new_year], no_faults); ([last_june], no_faults)] blank_store)
  = Some 19723%Z.
Proof.
  vm_compute. reflexivity.
Qed.

(** * Further properties of the program *)

(** ** data_quality_checks *)

Section ValidatorRows.

Context {lib : Library}.

Lemma passes_accepts (df : DataFrame) (row : nat * Transaction) :
  In row df -> passes df row = accepts row.
Proof.
  intros Hin. unfold passes, accepts.
  rewrite (one_transactionId_always df row Hin). apply andb_true_r.
Qed.

Lemma fails_accepts (df : DataFrame) (row : nat * Transaction) :
  In row df -> fails df row = negb (accepts row).
Proof.
  intros Hin. now rewrite fails_negb_passes, passes_accepts.
Qed.

(** X1. A row is accepted exactly when its currency is listed and its date
    parses; the other rows of the frame play no part.  Both outputs keep
    the rows in the order of the input. *)
Theorem accepted_rows_are_row_local (df : DataFrame) :
  data_quality_checks df
  = inr (filter accepts df, filter (fun row => negb (accepts row)) df).
Proof.
  rewrite data_quality_checks_rows. f_equal. f_equal.
  - apply filter_ext_in. intros row Hrow. now apply passes_accepts.
  - apply filter_ext_in. intros row Hrow. now apply fails_accepts.
Qed.

Lemma filter_all (A : Type) (f : A -> bool) (l : list A) :
  (forall x, In x l -> f x = true) -> filter f l = l.
Proof.
  induction l as [|x l IH]; intros H; simpl; [reflexivity|].
  rewrite (H x (or_introl eq_refl)). f_equal. apply IH.
  intros y Hy. apply H. now right.
Qed.

Lemma filter_none (A : Type) (f : A -> bool) (l : list A) :
  (forall x, In x l -> f x = false) -> filter f l = [].
Proof.
  induction l as [|x l IH]; intros H; simpl; [reflexivity|].
  rewrite (H x (or_introl eq_refl)). apply IH.
  intros y Hy. apply H. now right.
Qed.

(** X2. Validating again changes nothing: the accepted output is accepted
    whole when it is checked on its own, and the rejected output is
    rejected whole. *)
Theorem validation_is_idempotent (df : DataFrame) :
  exists accepted rejected,
    data_quality_checks df = inr (accepted, rejected)
    /\ data_quality_checks accepted = inr (accepted, [])
    /\ data_quality_checks rejected = inr ([], rejected).
Proof.
  exists (filter (passes df) df), (filter (fails df) df).
  split; [apply data_quality_checks_rows|]. split.
  - rewrite data_quality_checks_rows.
    rewrite (@filter_all _ (passes (filter (passes df) df))).
    + rewrite (@filter_none _ (fails (filter (passes df) df))); [reflexivity|].
      intros row Hrow. rewrite fails_accepts by assumption.
      apply filter_In in Hrow. destruct Hrow as [Hin Hp].
      now rewrite <- (passes_accepts df row Hin), Hp.
    + intros row Hrow. rewrite passes_accepts by assumption.
      apply filter_In in Hrow. destruct Hrow as [Hin Hp].
      now rewrite <- (passes_accepts df row Hin).
  - rewrite data_quality_checks_rows.
    rewrite (@filter_all _ (fails (filter (fails df) df))).
    + rewrite (@filter_none _ (passes (filter (fails df) df))); [reflexivity|].
      intros row Hrow. rewrite passes_accepts by assumption.
      apply filter_In in Hrow. destruct Hrow as [Hin Hf].
      rewrite (fails_accepts df row Hin) in Hf.
      now destruct (accepts row).
    + intros row Hrow. rewrite fails_accepts by assumption.
      apply filter_In in Hrow. destruct Hrow as [Hin Hf].
      now rewrite <- (fails_accepts df row Hin).
Qed.

End ValidatorRows.

(** ** The sinks, statement by statement *)

Section BatchInvariant.

(** A relation kept by the statements of one sink is kept by the sink. *)
Variable A : Type.
Variable sql : A -> statement.
Variable R : Connection -> Connection -> Prop.
Hypothesis R_refl : forall c, R c c.
Hypothesis R_trans : forall a b c, R a b -> R b c -> R a c.
Hypothesis R_sql :
  forall rejected args c, R c (fst (cursor_execute rejected (sql args) c)).

Lemma execute_batch_kept_sql (flt : option fault) (argslist : list A) :
  forall sent c, R c (fst (execute_batch flt sent sql argslist c)).
Proof.
  induction argslist as [|args rest IH]; intros sent c; simpl; [apply R_refl|].
  destruct (client_raises flt sent); simpl; [apply R_refl|].
  destruct (cursor_execute (server_rejects flt sent) (sql args) c)
    as [c' [e|]] eqn:E; simpl.
  - pose proof (R_sql (server_rejects flt sent) args c) as H.
    now rewrite E in H.
  - apply R_trans with c'.
    + pose proof (R_sql (server_rejects flt sent) args c) as H.
      now rewrite E in H.
    + apply IH.
Qed.

End BatchInvariant.

Lemma exec_sql_writes_only (st : statement) (db db' : Database) :
  exec_sql st db = Some db' -> writes_only st db db'.
Proof.
  destruct st; simpl.
  - intros [= <-]. now split.
  - intros [= <-]. now split.
  - intros [= <-]. now split.
  - destruct (transactions_table db); [|discriminate]. intros [= <-]. now split.
  - destruct (customer_table db); [|discriminate]. intros [= <-]. now split.
  - destruct (error_log_table db); [|discriminate]. intros [= <-]. now split.
Qed.

Lemma cursor_execute_cases (rejected : bool) (st : statement) (c : Connection) :
  durable (fst (cursor_execute rejected st c)) = durable c
  /\ (working (fst (cursor_execute rejected st c)) = working c
      \/ exec_sql st (working c)
         = Some (working (fst (cursor_execute rejected st c)))).
Proof.
  unfold cursor_execute. destruct (failed c); [simpl; auto|].
  destruct rejected; [simpl; auto|].
  destruct (exec_sql st (working c)); simpl; auto.
Qed.

(** X3. A sink writes to its own relation only: whatever the fault and
    whatever the state of the transaction, the transactions sink leaves
    [customer_table] and [error_log_table] as they were, the customer sink
    leaves the two others, the error log sink leaves the two others, and
    none of them changes what is committed. *)
Theorem sinks_write_only_their_relation (flt : option fault) (cursor : Connection)
    (rows : list TransactionRow) (failed_df : DataFrame) :
  (let after := fst (insert_into_transactions_table flt cursor rows) in
   durable after = durable cursor
   /\ customer_table (working after) = customer_table (working cursor)
   /\ error_log_table (working after) = error_log_table (working cursor))
  /\ (let after := fst (insert_into_customer_table flt cursor rows) in
      durable after = durable cursor
      /\ transactions_table (working after) = transactions_table (working cursor)
      /\ error_log_table (working after) = error_log_table (working cursor))
  /\ (let after := fst (insert_into_error_log_table flt cursor failed_df) in
      durable after = durable cursor
      /\ transactions_table (working after) = transactions_table (working cursor)
      /\ customer_table (working after) = customer_table (working cursor)).
Proof.
  split; [|split]; cbv zeta.
  - unfold insert_into_transactions_table. rewrite report_fst.
    apply (@execute_batch_kept_sql _ _
             (fun c c' =>
                     durable c' = durable c
                     /\ customer_table (working c') = customer_table (working c)
                     /\ error_log_table (working c') = error_log_table (working c))).
    + intros c. auto.
    + intros a b c [H1 [H2 H3]] [H4 [H5 H6]]. repeat split; congruence.
    + intros rejected args c.
      destruct (cursor_execute_cases rejected (InsertTransaction args) c)
        as [Hd [Hw|Hw]]; split; try assumption.
      * now rewrite Hw.
      * apply exec_sql_writes_only in Hw. exact Hw.
  - unfold insert_into_customer_table. rewrite report_fst.
    apply (@execute_batch_kept_sql _ _
             (fun c c' =>
                     durable c' = durable c
                     /\ transactions_table (working c') = transactions_table (working c)
                     /\ error_log_table (working c') = error_log_table (working c))).
    + intros c. auto.
    + intros a b c [H1 [H2 H3]] [H4 [H5 H6]]. repeat split; congruence.
    + intros rejected args c.
      destruct (cursor_execute_cases rejected (InsertCustomer args) c)
        as [Hd [Hw|Hw]]; split; try assumption.
      * now rewrite Hw.
      * apply exec_sql_writes_only in Hw. exact Hw.
  - unfold insert_into_error_log_table. rewrite report_fst.
    apply (@execute_batch_kept_sql _ _
             (fun c c' =>
                     durable c' = durable c
                     /\ transactions_table (working c') = transactions_table (working c)
                     /\ customer_table (working c') = customer_table (working c))).
    + intros c. auto.
    + intros a b c [H1 [H2 H3]] [H4 [H5 H6]]. repeat split; congruence.
    + intros rejected args c.
      destruct (cursor_execute_cases rejected (InsertErrorLog args) c)
        as [Hd [Hw|Hw]]; split; try assumption.
      * now rewrite Hw.
      * apply exec_sql_writes_only in Hw. exact Hw.
Qed.

(** X4. Once a statement of the transaction has failed, nothing more is
    written in it: [create_tables] and the three sinks leave a failed
    connection exactly as they found it, whatever their arguments. *)
Theorem failed_transaction_takes_no_write (cursor : Connection)
    (schema : option schema_fault) (flt : option fault)
    (rows : list TransactionRow) (failed_df : DataFrame) :
  failed cursor = true ->
  fst (create_tables schema cursor) = cursor
  /\ fst (insert_into_transactions_table flt cursor rows) = cursor
  /\ fst (insert_into_customer_table flt cursor rows) = cursor
  /\ fst (insert_into_error_log_table flt cursor failed_df) = cursor.
Proof.
  intros F.
  set (R := fun c c' : Connection => failed c = true -> c' = c).
  assert (R_refl : forall c, R c c) by (intros c _; reflexivity).
  assert (R_trans : forall a b c, R a b -> R b c -> R a c).
  { intros a b c H1 H2 Fa. specialize (H1 Fa). subst b. now apply H2. }
  assert (R_step : forall rejected st c, R c (fst (cursor_execute rejected st c))).
  { intros rejected st c Fc. unfold cursor_execute. now rewrite Fc. }
  repeat split.
  - now apply (create_tables_kept R R_trans R_step).
  - now apply (insert_into_transactions_table_kept R R_refl R_trans R_step).
  - now apply (insert_into_customer_table_kept R R_refl R_trans R_step).
  - now apply (insert_into_error_log_table_kept R R_refl R_trans R_step).
Qed.

(** X4 on a connection whose second [CREATE TABLE] was rejected. *)
Lemma failed_transaction_takes_no_write_witness :
  fst (create_tables None
         (fst (create_tables (Some fails_customer_table) (connect blank_store))))
  = fst (create_tables (Some fails_customer_table) (connect blank_store))
  /\ fst (insert_into_transactions_table None
            (fst (create_tables (Some fails_customer_table) (connect blank_store)))
            [first_row])
     = fst (create_tables (Some fails_customer_table) (connect blank_store))
  /\ fst (insert_into_customer_table None
            (fst (create_tables (Some fails_customer_table) (connect blank_store)))
            [first_row])
     = fst (create_tables (Some fails_customer_table) (connect blank_store))
  /\ fst (insert_into_error_log_table None
            (fst (create_tables (Some fails_customer_table) (connect blank_store)))
            [(0, lunch_cad)])
     = fst (create_tables (Some fails_customer_table) (connect blank_store)).
Proof.
  apply (@failed_transaction_takes_no_write
           (fst (create_tables (Some fails_customer_table) (connect blank_store)))
           None None [first_row] [(0, lunch_cad)]).
  reflexivity.
Defined.

(** ** create_tables *)

Lemma create_tables_ok (cursor : Connection) :
  failed cursor = false ->
  create_tables None cursor
  = (mkConnection (durable cursor)
       (mkDatabase (if_not_exists (transactions_table (working cursor)))
                   (if_not_exists (customer_table (working cursor)))
                   (if_not_exists (error_log_table (working cursor)))) false,
     [("Tables created successfully!", None)]).
Proof.
  intros F. unfold create_tables, cursor_execute. rewrite F. reflexivity.
Qed.

Lemma if_not_exists_twice (A : Type) (table : option (list A)) :
  if_not_exists (if_not_exists table) = if_not_exists table.
Proof. now destruct table. Qed.

Lemma if_not_exists_some (A : Type) (table : option (list A)) :
  if_not_exists table <> None.
Proof. now destruct table. Qed.

(** X5. On a healthy transaction [create_tables] brings the three
    relations into existence, keeps every row of the relations that
    existed, commits nothing by itself, and is idempotent: a second call
    leaves the connection as the first one left it. *)
Theorem create_tables_keeps_rows_and_is_idempotent (cursor : Connection) :
  failed cursor = false ->
  schema_ready (working (fst (create_tables None cursor)))
  /\ rows_of (transactions_table (working (fst (create_tables None cursor))))
     = rows_of (transactions_table (working cursor))
  /\ rows_of (customer_table (working (fst (create_tables None cursor))))
     = rows_of (customer_table (working cursor))
  /\ rows_of (error_log_table (working (fst (create_tables None cursor))))
     = rows_of (error_log_table (working cursor))
  /\ durable (fst (create_tables None cursor)) = durable cursor
  /\ create_tables None (fst (create_tables None cursor))
     = create_tables None cursor.
Proof.
  intros F. rewrite (create_tables_ok _ F). simpl.
  repeat split; try apply if_not_exists_some; try apply rows_of_if_not_exists.
  rewrite create_tables_ok by reflexivity. simpl.
  now rewrite !if_not_exists_twice.
Qed.

(** X5 on a store where only the customer relation exists. *)
Lemma create_tables_keeps_rows_and_is_idempotent_witness :
  schema_ready
    (working (fst (create_tables None
       (connect (mkDatabase None (Some [customer_columns first_row]) None)))))
  /\ rows_of (transactions_table
       (working (fst (create_tables None
          (connect (mkDatabase None (Some [customer_columns first_row]) None))))))
     = rows_of (transactions_table
         (working (connect (mkDatabase None (Some [customer_columns first_row]) None))))
  /\ rows_of (customer_table
       (working (fst (create_tables None
          (connect (mkDatabase None (Some [customer_columns first_row]) None))))))
     = rows_of (customer_table
         (working (connect (mkDatabase None (Some [customer_columns first_row]) None))))
  /\ rows_of (error_log_table
       (working (fst (create_tables None
          (connect (mkDatabase None (Some [customer_columns first_row]) None))))))
     = rows_of (error_log_table
         (working (connect (mkDatabase None (Some [customer_columns first_row]) None))))
  /\ durable (fst (create_tables None
        (connect (mkDatabase None (Some [customer_columns first_row]) None))))
     = durable (connect (mkDatabase None (Some [customer_columns first_row]) None))
  /\ create_tables None
       (fst (create_tables None
          (connect (mkDatabase None (Some [customer_columns first_row]) None))))
     = create_tables None
         (connect (mkDatabase None (Some [customer_columns first_row]) None)).
Proof.
  apply (@create_tables_keeps_rows_and_is_idempotent
           (connect (mkDatabase None (Some [customer_columns first_row]) None))).
  reflexivity.
Defined.

(** ** insert_into_error_log_table *)

Lemma execute_batch_error_log (rows : list ErrorLogRow) (sent : nat)
    (d : Database) (table : list ErrorLogRow)
    (transactions : option (list TransactionRow))
    (customers : option (list CustomerRow)) :
  execute_batch None sent InsertErrorLog rows
    (mkConnection d (mkDatabase transactions customers (Some table)) false)
  = (mkConnection d (mkDatabase transactions customers (Some (table ++ rows))) false,
     None).
Proof.
  revert sent table.
  induction rows as [|r rows IH]; intros sent table; simpl.
  - now rewrite app_nil_r.
  - unfold cursor_execute. simpl. rewrite IH. now rewrite <- app_assoc.
Qed.

Lemma insert_into_error_log_table_ok (cursor : Connection)
    (table : list ErrorLogRow) (failed_df : DataFrame) :
  failed cursor = false ->
  error_log_table (working cursor) = Some table ->
  insert_into_error_log_table None cursor failed_df
  = (mkConnection (durable cursor)
       (mkDatabase (transactions_table (working cursor))
                   (customer_table (working cursor))
                   (Some (table ++ map error_log_columns failed_df))) false,
     [("Error log records inserted successfully!", None)]).
Proof.
  destruct cursor as [d [transactions customers errors] f]. simpl.
  intros -> ->. unfold insert_into_error_log_table.
  now rewrite execute_batch_error_log.
Qed.

(** X6. The error log is append-only: on a healthy transaction the sink
    keeps every row already logged, also rows equal to the new ones, and
    adds after them one row per rejected record, in the order of the
    frame, carrying the identifiers and the description of the record. *)
Theorem error_log_is_appended (cursor : Connection) (table : list ErrorLogRow)
    (failed_df : DataFrame) :
  failed cursor = false ->
  error_log_table (working cursor) = Some table ->
  error_log_table (working (fst (insert_into_error_log_table None cursor failed_df)))
  = Some (table ++ map error_log_columns failed_df)
  /\ length (rows_of (error_log_table
               (working (fst (insert_into_error_log_table None cursor failed_df)))))
     = length table + length failed_df
  /\ snd (insert_into_error_log_table None cursor failed_df)
     = [("Error log records inserted successfully!", None)].
Proof.
  intros F T. rewrite (insert_into_error_log_table_ok _ _ F T). simpl.
  repeat split. now rewrite length_app, length_map.
Qed.

(** X6 on a log that already holds the row that is logged again. *)
Lemma error_log_is_appended_witness :
  error_log_table
    (working (fst (insert_into_error_log_table None
       (connect (mkDatabase None None (Some [error_log_columns (0, lunch_cad)])))
       [(0, lunch_cad); (1, slash_date)])))
  = Some ([error_log_columns (0, lunch_cad)]
          ++ map error_log_columns [(0, lunch_cad); (1, slash_date)])
  /\ length (rows_of (error_log_table
       (working (fst (insert_into_error_log_table None
          (connect (mkDatabase None None (Some [error_log_columns (0, lunch_cad)])))
          [(0, lunch_cad); (1, slash_date)])))))
     = length [error_log_columns (0, lunch_cad)]
       + length [(0, lunch_cad); (1, slash_date)]
  /\ snd (insert_into_error_log_table None
            (connect (mkDatabase None None (Some [error_log_columns (0, lunch_cad)])))
            [(0, lunch_cad); (1, slash_date)])
     = [("Error log records inserted successfully!", None)].
Proof.
  apply (@error_log_is_appended
           (connect (mkDatabase None None (Some [error_log_columns (0, lunch_cad)])))
           [error_log_columns (0, lunch_cad)] [(0, lunch_cad); (1, slash_date)]).
  - reflexivity.
  - reflexivity.
Defined.

(** ** insert_into_customer_table: the rollup is a maximum *)

Lemma upsert_customers_cons (r : CustomerRow) (rows table : list CustomerRow) :
  upsert_customers (r :: rows) table = upsert_customers rows (upsert_customer r table).
Proof. reflexivity. Qed.

Lemma upsert_customers_grows (rows table : list CustomerRow) (customer : uuid)
    (x : CustomerRow) :
  rollup_of customer table = Some x ->
  exists y, rollup_of customer (upsert_customers rows table) = Some y
            /\ (c_transactionDate x <= c_transactionDate y)%Z.
Proof.
  revert table x.
  induction rows as [|r rows IH]; intros table x Hx.
  - exists x. split; [assumption|lia].
  - rewrite upsert_customers_cons.
    assert (Hstep : exists x', rollup_of customer (upsert_customer r table) = Some x'
                     /\ (c_transactionDate x <= c_transactionDate x')%Z).
    { rewrite rollup_of_upsert, Hx.
      destruct (N.eqb (c_customerId r) customer).
      - eexists. split; [reflexivity|]. simpl. unfold GREATEST. lia.
      - exists x. split; [reflexivity|lia]. }
    destruct Hstep as [x' [Hx' Hle]].
    destruct (IH _ _ Hx') as [y [Hy Hle']].
    exists y. split; [assumption|lia].
Qed.

Lemma upsert_customers_bound (rows table : list CustomerRow) (r : CustomerRow) :
  In r rows ->
  exists y, rollup_of (c_customerId r) (upsert_customers rows table) = Some y
            /\ (c_transactionDate r <= c_transactionDate y)%Z.
Proof.
  revert table.
  induction rows as [|r0 rows IH]; intros table Hin; [contradiction|].
  rewrite upsert_customers_cons. destruct Hin as [->|Hin].
  - assert (Hstep : exists x', rollup_of (c_customerId r) (upsert_customer r table)
                               = Some x'
                     /\ (c_transactionDate r <= c_transactionDate x')%Z).
    { rewrite rollup_of_upsert, N.eqb_refl.
      eexists. split; [reflexivity|]. simpl. unfold GREATEST.
      destruct (rollup_of (c_customerId r) table); lia. }
    destruct Hstep as [x' [Hx' Hle]].
    destruct (upsert_customers_grows rows _ _ Hx') as [y [Hy Hle']].
    exists y. split; [assumption|lia].
  - now apply IH.
Qed.

Lemma upsert_customers_attained (rows table : list CustomerRow) (customer : uuid)
    (y : CustomerRow) :
  rollup_of customer (upsert_customers rows table) = Some y ->
  (exists old, rollup_of customer table = Some old
               /\ c_transactionDate y = c_transactionDate old)
  \/ (exists r, In r rows /\ c_customerId r = customer
                /\ c_transactionDate r = c_transactionDate y).
Proof.
  revert table.
  induction rows as [|r rows IH]; intros table Hy.
  - left. exists y. now split.
  - rewrite upsert_customers_cons in Hy.
    destruct (IH _ Hy) as [[old [Hold Hd]]|[r' [Hin [Hc Hd]]]].
    + rewrite rollup_of_upsert in Hold.
      destruct (N.eqb_spec (c_customerId r) customer) as [Hr|Hr].
      * injection Hold as <-. simpl in Hd.
        destruct (rollup_of customer table) as [x|] eqn:Hx.
        -- unfold GREATEST in Hd.
           destruct (Z.max_spec (c_transactionDate r) (c_transactionDate x))
             as [[_ Hm]|[_ Hm]]; rewrite Hm in Hd.
           ++ left. exists x. now split.
           ++ right. exists r. repeat split; [now left|assumption|congruence].
        -- right. exists r. repeat split; [now left|assumption|congruence].
      * left. exists old. now split.
    + right. exists r'. repeat split; [now right|assumption|assumption].
Qed.

(** X7. The rollup date is a maximum: after the customer sink has run on a
    healthy transaction, every row of the batch has a customer row whose
    date is not older than its own, and the date of every customer row is
    either the date stored before or the date of a row of that customer in
    the batch. *)
Theorem rollup_date_is_the_maximum (cursor : Connection) (table : list CustomerRow)
    (rows : list TransactionRow) :
  failed cursor = false ->
  customer_table (working cursor) = Some table ->
  (forall r, In r rows ->
     exists d,
       rollup_date (t_customerId r)
         (working (fst (insert_into_customer_table None cursor rows))) = Some d
       /\ (t_transactionDate r <= d)%Z)
  /\ (forall customer d,
        rollup_date customer
          (working (fst (insert_into_customer_table None cursor rows))) = Some d ->
        rollup_date customer (working cursor) = Some d
        \/ exists r, In r rows /\ t_customerId r = customer
                     /\ t_transactionDate r = d).
Proof.
  intros F T. rewrite (insert_into_customer_table_ok _ _ F T).
  unfold rollup_date. rewrite T. simpl. split.
  - intros r Hr.
    destruct (upsert_customers_bound (map customer_columns rows) table
                (customer_columns r)) as [y [Hy Hle]].
    { now apply in_map. }
    simpl in Hy, Hle. exists (c_transactionDate y). rewrite Hy. now split.
  - intros customer d Hd.
    destruct (rollup_of customer
                (upsert_customers (map customer_columns rows) table)) as [y|] eqn:Hy;
      [|discriminate].
    injection Hd as <-.
    destruct (upsert_customers_attained _ _ _ Hy)
      as [[old [Hold Hd]]|[r' [Hin [Hc Hd]]]].
    + left. now rewrite Hold, Hd.
    + right. apply in_map_iff in Hin. destruct Hin as [r [<- Hin]].
      exists r. now repeat split.
Qed.

(** X7 on the two rows of customer 10, whose stored date is older. *)
Lemma rollup_date_is_the_maximum_witness :
  (forall r, In r [first_row; second_row] ->
     exists d,
       rollup_date (t_customerId r)
         (working (fst (insert_into_customer_table None
            (connect (mkDatabase None (Some [mkCustomerRow 10%N "Al" 19000%Z]) None))
            [first_row; second_row]))) = Some d
       /\ (t_transactionDate r <= d)%Z)
  /\ (forall customer d,
        rollup_date customer
          (working (fst (insert_into_customer_table None
             (connect (mkDatabase None (Some [mkCustomerRow 10%N "Al" 19000%Z]) None))
             [first_row; second_row]))) = Some d ->
        rollup_date customer
          (working (connect
             (mkDatabase None (Some [mkCustomerRow 10%N "Al" 19000%Z]) None))) = Some d
        \/ exists r, In r [first_row; second_row] /\ t_customerId r = customer
                     /\ t_transactionDate r = d).
Proof.
  apply (@rollup_date_is_the_maximum
           (connect (mkDatabase None (Some [mkCustomerRow 10%N "Al" 19000%Z]) None))
           [mkCustomerRow 10%N "Al" 19000%Z] [first_row; second_row]).
  - reflexivity.
  - reflexivity.
Defined.

(** ** What a run keeps *)

Lemma customer_no_conflict_absent (r : CustomerRow) (table : list CustomerRow) :
  existsb (customer_conflict r) table = false
  <-> ~ In (c_customerId r) (map c_customerId table).
Proof.
  split.
  - intros H Hin. apply in_map_iff in Hin. destruct Hin as [x [Hk Hx]].
    assert (Ht : existsb (customer_conflict r) table = true).
    { apply existsb_exists. exists x. split; [assumption|].
      unfold customer_conflict. now apply N.eqb_eq. }
    congruence.
  - intros H. destruct (existsb (customer_conflict r) table) eqn:E; [|reflexivity].
    apply existsb_exists in E. destruct E as [x [Hx Hc]].
    elim H. apply in_map_iff. exists x. split; [|assumption].
    now apply N.eqb_eq in Hc.
Qed.

Lemma upsert_customer_ids (r : CustomerRow) (table : list CustomerRow) :
  map c_customerId (upsert_customer r table)
  = if existsb (customer_conflict r) table
    then map c_customerId table
    else map c_customerId table ++ [c_customerId r].
Proof.
  unfold upsert_customer.
  destruct (existsb (customer_conflict r) table).
  - rewrite map_map. apply map_ext. intros x.
    now destruct (customer_conflict r x).
  - now rewrite map_app.
Qed.

Lemma upsert_customer_pkey (r : CustomerRow) (table : list CustomerRow) :
  customer_pkey table -> customer_pkey (upsert_customer r table).
Proof.
  unfold customer_pkey. intros H. rewrite upsert_customer_ids.
  destruct (existsb (customer_conflict r) table) eqn:E; [assumption|].
  apply customer_no_conflict_absent in E.
  apply NoDup_app; [assumption|repeat constructor; intros []|].
  intros k Hk [Hin|[]]. subst k. contradiction.
Qed.

Lemma never_deleted_refl (db : Database) : never_deleted db db.
Proof.
  repeat split; auto. exists []. now rewrite app_nil_r.
Qed.

Lemma never_deleted_trans (a b c : Database) :
  never_deleted a b -> never_deleted b c -> never_deleted a c.
Proof.
  intros [A1 [A2 [A3 [A4 [A5 [added Ha]]]]]] [B1 [B2 [B3 [B4 [B5 [added' Hb]]]]]].
  repeat split; auto.
  exists (added ++ added'). now rewrite Hb, Ha, app_assoc.
Qed.

Lemma exec_sql_never_deleted (st : statement) (db db' : Database) :
  exec_sql st db = Some db' -> never_deleted db db'.
Proof.
  destruct st; simpl.
  - intros [= <-]. repeat split; simpl; auto.
    + intros _. apply if_not_exists_some.
    + now rewrite rows_of_if_not_exists.
    + exists []. now rewrite app_nil_r.
  - intros [= <-]. repeat split; simpl; auto.
    + intros _. apply if_not_exists_some.
    + now rewrite rows_of_if_not_exists.
    + exists []. now rewrite app_nil_r.
  - intros [= <-]. repeat split; simpl; auto.
    + intros _. apply if_not_exists_some.
    + exists []. now rewrite rows_of_if_not_exists, app_nil_r.
  - destruct (transactions_table db) as [table|] eqn:T; [|discriminate].
    intros [= <-]. unfold never_deleted. simpl. rewrite T. simpl.
    repeat split; auto; try discriminate.
    + intros key Hk. rewrite upsert_transaction_keys.
      destruct (existsb (transaction_conflict r) table); [assumption|].
      apply in_or_app. now left.
    + exists []. now rewrite app_nil_r.
  - destruct (customer_table db) as [table|] eqn:T; [|discriminate].
    intros [= <-]. unfold never_deleted. simpl. rewrite T. simpl.
    repeat split; auto; try discriminate.
    + intros customer Hk. rewrite upsert_customer_ids.
      destruct (existsb (customer_conflict r) table); [assumption|].
      apply in_or_app. now left.
    + exists []. now rewrite app_nil_r.
  - destruct (error_log_table db) as [table|] eqn:T; [|discriminate].
    intros [= <-]. unfold never_deleted. simpl. rewrite T. simpl.
    repeat split; auto; try discriminate.
    now exists [r].
Qed.

Lemma exec_sql_pkeys_hold (st : statement) (db db' : Database) :
  exec_sql st db = Some db' -> pkeys_hold db -> pkeys_hold db'.
Proof.
  unfold pkeys_hold. destruct st; simpl.
  - intros [= <-]. simpl. now rewrite rows_of_if_not_exists.
  - intros [= <-]. simpl. now rewrite rows_of_if_not_exists.
  - intros [= <-]. simpl. auto.
  - destruct (transactions_table db) as [table|] eqn:T; [|discriminate].
    intros [= <-]. simpl. intros [H1 H2]. split; [|assumption].
    now apply upsert_transaction_pkey.
  - destruct (customer_table db) as [table|] eqn:T; [|discriminate].
    intros [= <-]. simpl. intros [H1 H2]. split; [assumption|].
    now apply upsert_customer_pkey.
  - destruct (error_log_table db); [|discriminate].
    intros [= <-]. simpl. auto.
Qed.

Lemma nothing_deleted_refl (c : Connection) : nothing_deleted c c.
Proof. split; [reflexivity|apply never_deleted_refl]. Qed.

Lemma nothing_deleted_trans (a b c : Connection) :
  nothing_deleted a b -> nothing_deleted b c -> nothing_deleted a c.
Proof.
  intros [H1 H2] [H3 H4]. split; [congruence|].
  now apply never_deleted_trans with (working b).
Qed.

Lemma nothing_deleted_step (rejected : bool) (st : statement) (c : Connection) :
  nothing_deleted c (fst (cursor_execute rejected st c)).
Proof.
  destruct (cursor_execute_cases rejected st c) as [Hd [Hw|Hw]];
    split; try assumption.
  - rewrite Hw. apply never_deleted_refl.
  - now apply exec_sql_never_deleted with st.
Qed.

Lemma pkeys_kept_refl (c : Connection) : pkeys_kept c c.
Proof. split; auto. Qed.

Lemma pkeys_kept_trans (a b c : Connection) :
  pkeys_kept a b -> pkeys_kept b c -> pkeys_kept a c.
Proof.
  intros [H1 H2] [H3 H4]. split; [congruence|auto].
Qed.

Lemma pkeys_kept_step (rejected : bool) (st : statement) (c : Connection) :
  pkeys_kept c (fst (cursor_execute rejected st c)).
Proof.
  destruct (cursor_execute_cases rejected st c) as [Hd [Hw|Hw]];
    split; try assumption.
  - now rewrite Hw.
  - now apply exec_sql_pkeys_hold with st.
Qed.

Section RunInvariants.

Context {lib : Library}.

Lemma run_never_deleted (db : Database) (r : list Transaction * Faults) :
  never_deleted db (run db r).
Proof.
  unfold run.
  destruct (main_store nothing_deleted nothing_deleted_refl nothing_deleted_trans
              nothing_deleted_step (fun a b H => proj1 H) (fst r) (snd r) db)
    as [H|[c [[Hd Hw] H]]]; rewrite H.
  - apply never_deleted_refl.
  - unfold commit. simpl in Hd, Hw.
    destruct (failed c); [rewrite Hd; apply never_deleted_refl|exact Hw].
Qed.

Lemma run_pkeys_hold (db : Database) (r : list Transaction * Faults) :
  pkeys_hold db -> pkeys_hold (run db r).
Proof.
  intros Hpk. unfold run.
  destruct (main_store pkeys_kept pkeys_kept_refl pkeys_kept_trans
              pkeys_kept_step (fun a b H => proj1 H) (fst r) (snd r) db)
    as [H|[c [[Hd Hw] H]]]; rewrite H.
  - assumption.
  - unfold commit. simpl in Hd, Hw.
    destruct (failed c); [now rewrite Hd|now apply Hw].
Qed.

(** X8. The pipeline never deletes: after any sequence of runs, with any
    batches and any failures, every relation that existed still exists,
    every key of [transactions_table] and every customer of
    [customer_table] is still stored, and the error log is the old log
    with rows added at its end. *)
Theorem runs_never_delete (rs : list (list Transaction * Faults)) (db : Database) :
  never_deleted db (runs rs db).
Proof.
  unfold runs. revert db.
  induction rs as [|r rs IH]; intros db; simpl.
  - apply never_deleted_refl.
  - apply never_deleted_trans with (run db r); [apply run_never_deleted|apply IH].
Qed.

(** X9. The primary keys survive: when no two rows of [transactions_table]
    share [(customerId, transactionId)] and no two rows of
    [customer_table] share [customerId] before a sequence of runs, the
    same holds after it, whatever the batches (also with duplicates in a
    batch) and whatever the failures. *)
Theorem runs_keep_primary_keys (rs : list (list Transaction * Faults))
    (db : Database) :
  pkeys_hold db -> pkeys_hold (runs rs db).
Proof.
  unfold runs. revert db.
  induction rs as [|r rs IH]; intros db Hpk; simpl; [assumption|].
  apply IH. now apply run_pkeys_hold.
Qed.

End RunInvariants.

(** X9 on two runs that load the same transaction twice in one batch. *)
Lemma runs_keep_primary_keys_witness :
  pkeys_hold
    (runs (lib := iso_library)
       [([coffee; coffee_again], no_faults); ([new_year; lunch_cad], client_fault)]
       blank_store).
Proof.
  apply (@runs_keep_primary_keys iso_library
           [([coffee; coffee_again], no_faults); ([new_year; lunch_cad], client_fault)]
           blank_store).
  split; constructor.
Defined.

(** ** main, end to end *)

Lemma if_not_exists_rows (A : Type) (table : option (list A)) :
  if_not_exists table = Some (rows_of table).
Proof. now destruct table. Qed.

Section EndToEnd.

Context {lib : Library}.

Lemma data_quality_checks_accepts (df : DataFrame) :
  filter (passes df) df = filter accepts df
  /\ filter (fails df) df = filter (fun row => negb (accepts row)) df.
Proof.
  split; apply filter_ext_in; intros row Hrow;
    [now apply passes_accepts|now apply fails_accepts].
Qed.

Lemma data_quality_checks_loaded_rows (records : list Transaction) :
  records <> [] ->
  data_quality_checks_loaded (load_data_from_json records)
  = inr (filter accepts (pd_DataFrame records),
         filter (fun row => negb (accepts row)) (pd_DataFrame records)).
Proof.
  intros Hne. destruct records as [|first rest]; [now elim Hne|].
  unfold load_data_from_json, data_quality_checks_loaded.
  destruct (data_quality_checks_accepts (pd_DataFrame (first :: rest))) as [Ha Hr].
  now rewrite data_quality_checks_rows, Ha, Hr.
Qed.

Lemma bind_parameters_in_order (r : TransactionRow) :
  bind_parameters (itertuples insert_columns r) = Some r.
Proof.
  destruct r. unfold itertuples, insert_columns, bind_parameters. simpl.
  unfold date_of_timestamp. now rewrite Z.div_mul by discriminate.
Qed.

Lemma transaction_parameters_in_order (rows : list TransactionRow) :
  transaction_parameters insert_columns rows = Some rows.
Proof.
  unfold transaction_parameters.
  induction rows as [|r rows IH]; [reflexivity|].
  cbn [traverse]. now rewrite bind_parameters_in_order, IH.
Qed.

(** A run without failures on a batch that is not empty and whose accepted
    records convert. *)
Lemma main_no_faults (records : list Transaction) (db : Database)
    (rows : list TransactionRow) :
  records <> [] ->
  traverse convert_row (map snd (filter accepts (pd_DataFrame records))) = Some rows ->
  main records no_faults db
  = mkResult
      [ ("Connected to PostgreSQL database successfully!", None);
        ("Tables created successfully!", None);
        match transaction_parameters (DataFrame_columns records) rows with
        | Some _ => ("Transactions inserted or updated successfully!", None)
        | None => ("Error inserting or updating transactions:", Some ProgrammingError)
        end;
        ("Customer records inserted or updated successfully!", None);
        ("Error log records inserted successfully!", None) ]
      None
      (mkDatabase
         (Some match transaction_parameters (DataFrame_columns records) rows with
               | Some parameters =>
                   upsert_transactions parameters (rows_of (transactions_table db))
               | None => rows_of (transactions_table db)
               end)
         (Some (upsert_customers (map customer_columns rows)
                  (rows_of (customer_table db))))
         (Some (rows_of (error_log_table db)
                ++ map error_log_columns
                     (filter (fun row => negb (accepts row)) (pd_DataFrame records))))).
Proof.
  intros Hne Hrows. rewrite main_steps. simpl connect_fails. cbv iota zeta.
  rewrite (data_quality_checks_loaded_rows Hne).
  unfold convert_types. rewrite Hrows.
  simpl create_tables_fault. simpl transactions_fault.
  simpl customer_fault. simpl error_log_fault.
  rewrite (create_tables_ok (connect db) eq_refl). simpl fst. simpl snd.
  simpl durable. simpl working.
  unfold write_transactions.
  destruct (transaction_parameters (DataFrame_columns records) rows)
    as [parameters|].
  - erewrite insert_into_transactions_table_ok;
      [|reflexivity|simpl; apply if_not_exists_rows].
    simpl fst. simpl snd.
    erewrite insert_into_customer_table_ok;
      [|reflexivity|simpl; apply if_not_exists_rows].
    simpl fst. simpl snd.
    erewrite insert_into_error_log_table_ok;
      [|reflexivity|simpl; apply if_not_exists_rows].
    reflexivity.
  - simpl fst. simpl snd.
    erewrite insert_into_customer_table_ok;
      [|reflexivity|simpl; apply if_not_exists_rows].
    simpl fst. simpl snd.
    erewrite insert_into_error_log_table_ok;
      [|reflexivity|simpl; apply if_not_exists_rows].
    simpl. now rewrite if_not_exists_rows.
Qed.

(** A run on the empty batch: reading [df['currency']] raises. *)
Lemma main_empty_batch (flt : Faults) (db : Database) :
  connect_fails flt = false ->
  main [] flt db
  = mkResult
      (("Connected to PostgreSQL database successfully!", None)
         :: snd (create_tables (create_tables_fault flt) (connect db)))
      (Some KeyError) db.
Proof.
  intros Hconn. rewrite main_steps, Hconn. cbv zeta. simpl.
  destruct (create_tables_kept stays_failed stays_failed_trans stays_failed_step
              (create_tables_fault flt) (connect db)) as [Hd _].
  unfold close. rewrite Hd. reflexivity.
Qed.

Lemma main_conversion_error (records : list Transaction) (flt : Faults)
    (db : Database) :
  connect_fails flt = false ->
  traverse convert_row (map snd (filter accepts (pd_DataFrame records))) = None ->
  main records flt db
  = mkResult
      (("Connected to PostgreSQL database successfully!", None)
         :: snd (create_tables (create_tables_fault flt) (connect db)))
      (Some ValueError) db.
Proof.
  intros Hconn Hrows.
  assert (Hne : records <> []) by (intros ->; discriminate).
  rewrite main_steps, Hconn. cbv zeta.
  rewrite (data_quality_checks_loaded_rows Hne).
  unfold convert_types. rewrite Hrows.
  destruct (create_tables_kept stays_failed stays_failed_trans stays_failed_step
              (create_tables_fault flt) (connect db)) as [Hd _].
  unfold close. rewrite Hd. reflexivity.
Qed.

(** X10. A run without failures, end to end: when the records list their
    keys in the order of the [INSERT] and the accepted records convert,
    [main] prints its five lines, raises nothing, and commits a store in
    which the three relations exist, [transactions_table] is the old table
    with the converted accepted rows upserted in batch order,
    [customer_table] the old one with their customer columns merged in the
    same order, and [error_log_table] the old log followed by the rejected
    records. *)
Theorem run_without_failure (records : list Transaction) (db : Database)
    (rows : list TransactionRow) :
  DataFrame_columns records = insert_columns ->
  traverse convert_row (map snd (filter accepts (pd_DataFrame records))) = Some rows ->
  main records no_faults db
  = mkResult
      [ ("Connected to PostgreSQL database successfully!", None);
        ("Tables created successfully!", None);
        ("Transactions inserted or updated successfully!", None);
        ("Customer records inserted or updated successfully!", None);
        ("Error log records inserted successfully!", None) ]
      None
      (mkDatabase
         (Some (upsert_transactions rows (rows_of (transactions_table db))))
         (Some (upsert_customers (map customer_columns rows)
                  (rows_of (customer_table db))))
         (Some (rows_of (error_log_table db)
                ++ map error_log_columns
                     (filter (fun row => negb (accepts row)) (pd_DataFrame records))))).
Proof.
  intros Hcolumns Hrows.
  assert (Hne : records <> []) by (intros ->; discriminate).
  rewrite (main_no_faults db Hne Hrows), Hcolumns.
  now rewrite transaction_parameters_in_order.
Qed.

(** X11. A conversion that raises ends the run before the sinks: when an
    accepted record does not convert (its [sourceDate], [amount] or an
    identifier), [main] raises, no sink is called, and nothing is
    persisted, the relations [create_tables] made in this run included. *)
Theorem conversion_error_aborts_before_the_sinks (records : list Transaction)
    (flt : Faults) (db : Database) :
  connect_fails flt = false ->
  traverse convert_row (map snd (filter accepts (pd_DataFrame records))) = None ->
  raised (main records flt db) = Some ValueError
  /\ store (main records flt db) = db
  /\ sink_lines (main records flt db) = [].
Proof.
  intros Hconn Hrows.
  rewrite (@main_conversion_error records flt db Hconn Hrows).
  repeat split. rewrite sink_lines_filter. simpl stdout.
  rewrite filter_head_false by reflexivity.
  apply create_tables_no_sink_line.
Qed.

End EndToEnd.

(** X10 on a batch with one accepted and two rejected records. *)
Lemma run_without_failure_witness :
  main (lib := iso_library) [coffee; lunch_cad; slash_date] no_faults blank_store
  = mkResult
      [ ("Connected to PostgreSQL database successfully!", None);
        ("Tables created successfully!", None);
        ("Transactions inserted or updated successfully!", None);
        ("Customer records inserted or updated successfully!", None);
        ("Error log records inserted successfully!", None) ]
      None
      (mkDatabase
         (Some (upsert_transactions
                  [mkTransactionRow 10%N "Alice" 5%N 19682%Z 1706779800%Z 17%Z 3%Z
                     "EUR" 350%Z "card payment"]
                  (rows_of (transactions_table blank_store))))
         (Some (upsert_customers
                  (map customer_columns
                     [mkTransactionRow 10%N "Alice" 5%N 19682%Z 1706779800%Z 17%Z 3%Z
                        "EUR" 350%Z "card payment"])
                  (rows_of (customer_table blank_store))))
         (Some (rows_of (error_log_table blank_store)
                ++ map error_log_columns
                     (filter (fun row => negb (accepts (lib := iso_library) row))
                        (pd_DataFrame [coffee; lunch_cad; slash_date]))))).
Proof.
  apply (@run_without_failure iso_library [coffee; lunch_cad; slash_date] blank_store).
  - reflexivity.
  - vm_compute. reflexivity.
Defined.

(** X11 on a batch whose second record has an identifier that is not a
    UUID, on a store without relations. *)
Lemma conversion_error_aborts_before_the_sinks_witness :
  raised (main (lib := iso_library) [coffee; unreadable_id] no_faults blank_store)
  = Some ValueError
  /\ store (main (lib := iso_library) [coffee; unreadable_id] no_faults blank_store)
     = blank_store
  /\ sink_lines (main (lib := iso_library) [coffee; unreadable_id] no_faults
                   blank_store) = [].
Proof.
  apply (@conversion_error_aborts_before_the_sinks iso_library
           [coffee; unreadable_id] no_faults blank_store).
  - reflexivity.
  - vm_compute. reflexivity.
Defined.

(** ** Transactions and their customers *)

Lemma upsert_transaction_in (r x : TransactionRow) (table : list TransactionRow) :
  In x (upsert_transaction r table) -> In x table \/ x = r.
Proof.
  unfold upsert_transaction.
  destruct (existsb (transaction_conflict r) table).
  - intros H. apply in_map_iff in H. destruct H as [y [Hy Hin]].
    destruct (transaction_conflict r y) eqn:Hc.
    + right. rewrite <- Hy. now apply update_transaction_conflict.
    + left. now subst.
  - intros H. apply in_app_or in H. destruct H as [H|[H|[]]]; auto.
Qed.

Lemma upsert_transactions_in (rows table : list TransactionRow) (x : TransactionRow) :
  In x (upsert_transactions rows table) -> In x table \/ In x rows.
Proof.
  unfold upsert_transactions. revert table.
  induction rows as [|r rows IH]; intros table H; simpl in *; [now left|].
  destruct (IH _ H) as [H'|H']; [|right; now right].
  destruct (upsert_transaction_in _ _ _ H') as [H''| ->]; [now left|].
  right. now left.
Qed.

Lemma upsert_customers_ids_kept (rows table : list CustomerRow) (customer : uuid) :
  In customer (map c_customerId table) ->
  In customer (map c_customerId (upsert_customers rows table)).
Proof.
  unfold upsert_customers. revert table.
  induction rows as [|r rows IH]; intros table H; simpl; [assumption|].
  apply IH. rewrite upsert_customer_ids.
  destruct (existsb (customer_conflict r) table); [assumption|].
  apply in_or_app. now left.
Qed.

Lemma rollup_of_in_ids (customer : uuid) (table : list CustomerRow) (y : CustomerRow) :
  rollup_of customer table = Some y -> In customer (map c_customerId table).
Proof.
  intros H. pose proof (rollup_of_customer _ _ H) as Hc.
  unfold rollup_of in H. apply find_some in H. destruct H as [Hin _].
  rewrite <- Hc. now apply in_map.
Qed.

Section Coverage.

Context {lib : Library}.

(** X12. Every stored transaction has its customer: when the records list
    their keys in the order of the [INSERT] and each row of
    [transactions_table] belongs to a customer of [customer_table] before
    a run without failures, the same holds after it, for the rows that
    were there and for the rows the run has written. *)
Theorem run_keeps_customers_of_transactions (records : list Transaction)
    (db : Database) :
  DataFrame_columns records = insert_columns ->
  customers_cover db ->
  customers_cover (run db (records, no_faults)).
Proof.
  intros Hcolumns Hcover. unfold run. simpl fst. simpl snd.
  assert (Hne : records <> []) by (intros ->; discriminate).
  destruct (traverse convert_row (map snd (filter accepts (pd_DataFrame records))))
    as [rows|] eqn:Hrows.
  - rewrite (main_no_faults db Hne Hrows), Hcolumns,
      transaction_parameters_in_order.
    intros x Hx. simpl in Hx |- *.
    apply upsert_transactions_in in Hx. destruct Hx as [Hx|Hx].
    + apply upsert_customers_ids_kept. now apply Hcover.
    + destruct (upsert_customers_bound (map customer_columns rows)
                  (rows_of (customer_table db)) (customer_columns x))
        as [y [Hy _]].
      { now apply in_map. }
      simpl in Hy. now apply rollup_of_in_ids in Hy.
  - now rewrite (@main_conversion_error _ records no_faults db eq_refl Hrows).
Qed.

End Coverage.

(** X12 on a first load into a store without relations. *)
Lemma run_keeps_customers_of_transactions_witness :
  customers_cover
    (run (lib := iso_library) blank_store ([coffee; new_year; lunch_cad], no_faults)).
Proof.
  apply (@run_keeps_customers_of_transactions iso_library
           [coffee; new_year; lunch_cad] blank_store).
  - reflexivity.
  - intros r [].
Defined.

(** ** Loading the same batch again *)

Lemma key_eq_dec (a b : uuid * uuid) : {a = b} + {a <> b}.
Proof. decide equality; apply N.eq_dec. Qed.

Lemma last_with (A K : Type) (key : A -> K)
    (key_dec : forall a b : K, {a = b} + {a <> b}) (rows : list A) (k : K) :
  In k (map key rows) ->
  exists before last after,
    rows = before ++ last :: after /\ key last = k
    /\ forall x, In x after -> key x <> k.
Proof.
  induction rows as [|x rows IH]; intros Hin; [contradiction|].
  destruct (in_dec key_dec k (map key rows)) as [Hrest|Hrest].
  - destruct (IH Hrest) as [before [last [after [-> [Hk Hafter]]]]].
    exists (x :: before), last, after. now repeat split.
  - destruct Hin as [Hx|Hin]; [|contradiction].
    exists [], x, rows. repeat split; [assumption|].
    intros y Hy Hk. apply Hrest. rewrite <- Hk. now apply in_map.
Qed.

Lemma facts_of_last (table before after : list TransactionRow) (last : TransactionRow) :
  transactions_pkey table ->
  (forall r, In r after -> transaction_key r <> transaction_key last) ->
  facts_of (transaction_key last) (upsert_transactions (before ++ last :: after) table)
  = [last].
Proof.
  intros Hpk Hafter. unfold upsert_transactions. rewrite fold_left_app. simpl.
  fold (upsert_transactions before table).
  fold (upsert_transactions after
          (upsert_transaction last (upsert_transactions before table))).
  rewrite facts_of_upsert_others by assumption.
  apply facts_of_upsert_same. now apply upsert_transactions_pkey.
Qed.

Lemma upsert_transactions_keys_present (rows table : list TransactionRow) :
  (forall r, In r rows -> In (transaction_key r) (map transaction_key table)) ->
  map transaction_key (upsert_transactions rows table) = map transaction_key table.
Proof.
  unfold upsert_transactions. revert table.
  induction rows as [|r rows IH]; intros table H; simpl; [reflexivity|].
  assert (Hk : map transaction_key (upsert_transaction r table)
               = map transaction_key table).
  { rewrite upsert_transaction_keys.
    destruct (existsb (transaction_conflict r) table) eqn:E; [reflexivity|].
    apply no_conflict_absent in E. elim E. apply H. now left. }
  rewrite IH; [assumption|].
  intros x Hx. rewrite Hk. apply H. now right.
Qed.

Lemma upsert_transactions_keys_kept (rows table : list TransactionRow)
    (key : uuid * uuid) :
  In key (map transaction_key table) ->
  In key (map transaction_key (upsert_transactions rows table)).
Proof.
  unfold upsert_transactions. revert table.
  induction rows as [|r rows IH]; intros table H; simpl; [assumption|].
  apply IH. rewrite upsert_transaction_keys.
  destruct (existsb (transaction_conflict r) table); [assumption|].
  apply in_or_app. now left.
Qed.

Lemma upsert_transactions_keys_written (rows table : list TransactionRow)
    (r : TransactionRow) :
  In r rows ->
  In (transaction_key r) (map transaction_key (upsert_transactions rows table)).
Proof.
  revert table.
  induction rows as [|r0 rows IH]; intros table Hin; [contradiction|].
  change (upsert_transactions (r0 :: rows) table)
    with (upsert_transactions rows (upsert_transaction r0 table)).
  destruct Hin as [->|Hin]; [|now apply IH].
  apply upsert_transactions_keys_kept. rewrite upsert_transaction_keys.
  destruct (existsb (transaction_conflict r) table) eqn:E.
  - apply existsb_exists in E. destruct E as [x [Hx Hc]].
    apply transaction_conflict_key in Hc. rewrite <- Hc. now apply in_map.
  - apply in_or_app. right. now left.
Qed.

(** Two tables with the same keys in the same order, a primary key, and
    the same rows under every key are the same table. *)
Lemma transactions_table_ext (t t' : list TransactionRow) :
  map transaction_key t = map transaction_key t' ->
  transactions_pkey t ->
  (forall key, facts_of key t = facts_of key t') ->
  t = t'.
Proof.
  unfold transactions_pkey. revert t'.
  induction t as [|x t IH]; intros [|y t'] Hkeys Hpk Hfacts;
    try discriminate; [reflexivity|].
  rewrite !map_cons in Hkeys.
  assert (Hxy : transaction_key x = transaction_key y) by congruence.
  assert (Htail : map transaction_key t = map transaction_key t') by congruence.
  clear Hkeys. rename Htail into Hkeys.
  rewrite map_cons in Hpk. apply NoDup_cons_iff in Hpk. destruct Hpk as [Hx Hpk].
  assert (Hy : ~ In (transaction_key y) (map transaction_key t'))
    by (rewrite <- Hxy, <- Hkeys; assumption).
  pose proof (Hfacts (transaction_key x)) as Hhead.
  assert (Ex : facts_of (transaction_key x) t = []) by now apply facts_of_absent.
  assert (Ey : facts_of (transaction_key x) t' = [])
    by (rewrite Hxy; now apply facts_of_absent).
  assert (Hself : has_key (transaction_key x) y = true)
    by (rewrite Hxy; apply has_key_self).
  rewrite !facts_of_cons, has_key_self, Hself, Ex, Ey in Hhead.
  injection Hhead as ->. f_equal.
  apply IH; [assumption|assumption|].
  intros key. destruct (key_eq_dec (transaction_key y) key) as [<-|Hne].
  - now rewrite Ex, Ey.
  - pose proof (Hfacts key) as Hk.
    now rewrite !facts_of_cons, (has_key_other Hne) in Hk.
Qed.

Lemma upsert_transactions_twice (rows table : list TransactionRow) :
  transactions_pkey table ->
  upsert_transactions rows (upsert_transactions rows table)
  = upsert_transactions rows table.
Proof.
  intros Hpk.
  pose proof (upsert_transactions_pkey rows Hpk) as Hpk1.
  apply transactions_table_ext.
  - apply upsert_transactions_keys_present. intros r Hr.
    now apply upsert_transactions_keys_written.
  - now apply upsert_transactions_pkey.
  - intros key.
    destruct (in_dec key_eq_dec key (map transaction_key rows)) as [Hin|Hnot].
    + destruct (last_with transaction_key key_eq_dec rows key Hin)
        as [before [last [after [-> [<- Hafter]]]]].
      now rewrite !facts_of_last.
    + apply facts_of_upsert_others. intros r Hr Hk. apply Hnot.
      rewrite <- Hk. now apply in_map.
Qed.

Lemma rollup_of_absent (customer : uuid) (table : list CustomerRow) :
  ~ In customer (map c_customerId table) -> rollup_of customer table = None.
Proof.
  intros H. destruct (rollup_of customer table) as [y|] eqn:E; [|reflexivity].
  elim H. now apply rollup_of_in_ids with y.
Qed.

Lemma rollup_of_head (x : CustomerRow) (table : list CustomerRow) :
  rollup_of (c_customerId x) (x :: table) = Some x.
Proof. unfold rollup_of. simpl. now rewrite N.eqb_refl. Qed.

Lemma rollup_of_tail (customer : uuid) (x : CustomerRow) (table : list CustomerRow) :
  c_customerId x <> customer ->
  rollup_of customer (x :: table) = rollup_of customer table.
Proof.
  intros H. unfold rollup_of. simpl.
  now destruct (N.eqb_spec (c_customerId x) customer).
Qed.

Lemma customer_table_ext (t t' : list CustomerRow) :
  map c_customerId t = map c_customerId t' ->
  customer_pkey t ->
  (forall customer, rollup_of customer t = rollup_of customer t') ->
  t = t'.
Proof.
  unfold customer_pkey. revert t'.
  induction t as [|x t IH]; intros [|y t'] Hids Hpk Hrows;
    try discriminate; [reflexivity|].
  rewrite !map_cons in Hids.
  assert (Hxy : c_customerId x = c_customerId y) by congruence.
  assert (Htail : map c_customerId t = map c_customerId t') by congruence.
  rewrite map_cons in Hpk. apply NoDup_cons_iff in Hpk. destruct Hpk as [Hx Hpk].
  pose proof (Hrows (c_customerId x)) as Hhead.
  rewrite rollup_of_head in Hhead. rewrite Hxy, rollup_of_head in Hhead.
  injection Hhead as Heq. subst y. f_equal.
  apply IH; [assumption|assumption|].
  intros customer. destruct (N.eq_dec (c_customerId x) customer) as [<-|Hne].
  - rewrite (rollup_of_absent _ _ Hx). rewrite Htail in Hx.
    now rewrite (rollup_of_absent _ _ Hx).
  - pose proof (Hrows customer) as Hc.
    now rewrite !rollup_of_tail in Hc by assumption.
Qed.

Lemma upsert_customers_pkey (rows table : list CustomerRow) :
  customer_pkey table -> customer_pkey (upsert_customers rows table).
Proof.
  unfold upsert_customers. revert table.
  induction rows as [|r rows IH]; intros table Hpk; simpl; [assumption|].
  apply IH. now apply upsert_customer_pkey.
Qed.

Lemma upsert_customers_ids_present (rows table : list CustomerRow) :
  (forall r, In r rows -> In (c_customerId r) (map c_customerId table)) ->
  map c_customerId (upsert_customers rows table) = map c_customerId table.
Proof.
  unfold upsert_customers. revert table.
  induction rows as [|r rows IH]; intros table H; simpl; [reflexivity|].
  assert (Hk : map c_customerId (upsert_customer r table) = map c_customerId table).
  { rewrite upsert_customer_ids.
    destruct (existsb (customer_conflict r) table) eqn:E; [reflexivity|].
    apply customer_no_conflict_absent in E. elim E. apply H. now left. }
  rewrite IH; [assumption|].
  intros x Hx. rewrite Hk. apply H. now right.
Qed.

Lemma rollup_of_last (table before after : list CustomerRow) (last : CustomerRow) :
  (forall r, In r after -> c_customerId r <> c_customerId last) ->
  exists y,
    rollup_of (c_customerId last) (upsert_customers (before ++ last :: after) table)
    = Some y
    /\ c_customerName y = c_customerName last.
Proof.
  intros Hafter. unfold upsert_customers. rewrite fold_left_app. simpl.
  fold (upsert_customers before table).
  fold (upsert_customers after
          (upsert_customer last (upsert_customers before table))).
  rewrite rollup_of_upsert_others by assumption.
  rewrite rollup_of_upsert, N.eqb_refl. eexists. split; reflexivity.
Qed.

Lemma upsert_customers_twice (rows table : list CustomerRow) :
  customer_pkey table ->
  upsert_customers rows (upsert_customers rows table) = upsert_customers rows table.
Proof.
  intros Hpk.
  apply customer_table_ext.
  - apply upsert_customers_ids_present. intros r Hr.
    destruct (upsert_customers_bound rows table r Hr) as [y [Hy _]].
    now apply rollup_of_in_ids with y.
  - now apply upsert_customers_pkey, upsert_customers_pkey.
  - intros customer.
    destruct (in_dec N.eq_dec customer (map c_customerId rows)) as [Hin|Hnot].
    + destruct (last_with c_customerId N.eq_dec rows customer Hin)
        as [before [last [after [Hrows [Hc Hafter]]]]].
      assert (Hafter' : forall r, In r after -> c_customerId r <> c_customerId last)
        by (intros r Hr; rewrite Hc; now apply Hafter).
      destruct (@rollup_of_last table before after last Hafter') as [y1 [Hy1 Hn1]].
      destruct (@rollup_of_last (upsert_customers rows table) before after last
                  Hafter') as [y2 [Hy2 Hn2]].
      rewrite <- Hrows, Hc in Hy1, Hy2.
      rewrite Hy1, Hy2. f_equal.
      pose proof (rollup_of_customer _ _ Hy1) as Hc1.
      pose proof (rollup_of_customer _ _ Hy2) as Hc2.
      assert (Hd : c_transactionDate y2 = c_transactionDate y1).
      { destruct (upsert_customers_grows rows _ _ Hy1) as [y [Hy Hle]].
        rewrite Hy2 in Hy. injection Hy as <-.
        destruct (upsert_customers_attained _ _ _ Hy2)
          as [[old [Hold Hd]]|[r [Hr [Hcr Hd]]]].
        - rewrite Hy1 in Hold. injection Hold as <-. assumption.
        - destruct (upsert_customers_bound rows table r Hr) as [y [Hy Hle']].
          rewrite Hcr, Hy1 in Hy. injection Hy as <-. lia. }
      destruct y1, y2. simpl in *. congruence.
    + apply rollup_of_upsert_others. intros r Hr Hc. apply Hnot.
      rewrite <- Hc. now apply in_map.
Qed.

Section Reload.

Context {lib : Library}.

(** X13. Loading a batch a second time: when the primary keys hold and
    the accepted records convert, a second run of the same batch without
    failures leaves [transactions_table] and [customer_table] exactly as
    the first run left them, and logs the rejected records once more. *)
Theorem second_load_changes_only_the_error_log (records : list Transaction)
    (db : Database) (rows : list TransactionRow) :
  pkeys_hold db ->
  traverse convert_row (map snd (filter accepts (pd_DataFrame records))) = Some rows ->
  transactions_table (run (run db (records, no_faults)) (records, no_faults))
  = transactions_table (run db (records, no_faults))
  /\ customer_table (run (run db (records, no_faults)) (records, no_faults))
     = customer_table (run db (records, no_faults))
  /\ rows_of (error_log_table
                (run (run db (records, no_faults)) (records, no_faults)))
     = rows_of (error_log_table (run db (records, no_faults)))
       ++ map error_log_columns
            (filter (fun row => negb (accepts row)) (pd_DataFrame records)).
Proof.
  intros [Hpt Hpc] Hrows. unfold run. simpl fst. simpl snd.
  destruct records as [|first rest].
  { rewrite !(main_empty_batch no_faults _ eq_refl). simpl.
    repeat split. now rewrite app_nil_r. }
  assert (Hne : first :: rest <> []) by discriminate.
  rewrite !(main_no_faults _ Hne Hrows).
  destruct (transaction_parameters (DataFrame_columns (first :: rest)) rows)
    as [parameters|]; simpl.
  - rewrite upsert_customers_twice by assumption.
    rewrite upsert_transactions_twice by assumption. repeat split.
  - rewrite upsert_customers_twice by assumption. repeat split.
Qed.

End Reload.

(** X13 on a batch with a repeated key and a rejected record. *)
Lemma second_load_changes_only_the_error_log_witness :
  transactions_table
    (run (lib := iso_library)
       (run (lib := iso_library) blank_store
          ([coffee; coffee_again; lunch_cad], no_faults))
       ([coffee; coffee_again; lunch_cad], no_faults))
  = transactions_table
      (run (lib := iso_library) blank_store
         ([coffee; coffee_again; lunch_cad], no_faults))
  /\ customer_table
       (run (lib := iso_library)
          (run (lib := iso_library) blank_store
             ([coffee; coffee_again; lunch_cad], no_faults))
          ([coffee; coffee_again; lunch_cad], no_faults))
     = customer_table
         (run (lib := iso_library) blank_store
            ([coffee; coffee_again; lunch_cad], no_faults))
  /\ rows_of (error_log_table
       (run (lib := iso_library)
          (run (lib := iso_library) blank_store
             ([coffee; coffee_again; lunch_cad], no_faults))
          ([coffee; coffee_again; lunch_cad], no_faults)))
     = rows_of (error_log_table
         (run (lib := iso_library) blank_store
            ([coffee; coffee_again; lunch_cad], no_faults)))
       ++ map error_log_columns
            (filter (fun row => negb (accepts (lib := iso_library) row))
               (pd_DataFrame [coffee; coffee_again; lunch_cad])).
Proof.
  apply (@second_load_changes_only_the_error_log iso_library
           [coffee; coffee_again; lunch_cad] blank_store
           [mkTransactionRow 10%N "Alice" 5%N 19682%Z 1706779800%Z 17%Z 3%Z
              "EUR" 350%Z "card payment";
            mkTransactionRow 10%N "Alice" 5%N 19682%Z 1706779800%Z 17%Z 3%Z
              "EUR" 3500%Z "card payment"]).
  - split; constructor.
  - vm_compute. reflexivity.
Defined.

(** ** What reaches transactions_table *)

Lemma traverse_in (A B : Type) (f : A -> option B) (l : list A) (ys : list B) (y : B) :
  traverse f l = Some ys -> In y ys -> exists x, In x l /\ f x = Some y.
Proof.
  revert ys.
  induction l as [|x l IH]; intros ys H Hy; simpl in H.
  - injection H as <-. contradiction.
  - destruct (f x) as [y0|] eqn:Hx; [|discriminate].
    destruct (traverse f l) as [ys0|]; [|discriminate].
    injection H as <-. destruct Hy as [<-|Hy].
    + exists x. split; [now left|assumption].
    + destruct (IH ys0 eq_refl Hy) as [x' [Hin Hx']].
      exists x'. split; [now right|assumption].
Qed.

Lemma cursor_execute_keeps_transactions (rejected : bool) (st : statement)
    (c : Connection) :
  (forall r, st <> InsertTransaction r) ->
  durable (fst (cursor_execute rejected st c)) = durable c
  /\ rows_of (transactions_table (working (fst (cursor_execute rejected st c))))
     = rows_of (transactions_table (working c)).
Proof.
  intros Hst.
  destruct (cursor_execute_cases rejected st c) as [Hd [Hw|Hw]];
    split; try assumption.
  - now rewrite Hw.
  - pose proof (exec_sql_writes_only _ _ Hw) as Hframe.
    destruct st; simpl in Hw, Hframe.
    + injection Hw as Hw. rewrite <- Hw. simpl. apply rows_of_if_not_exists.
    + destruct Hframe as [-> _]. reflexivity.
    + destruct Hframe as [-> _]. reflexivity.
    + now elim (Hst r).
    + destruct Hframe as [-> _]. reflexivity.
    + destruct Hframe as [-> _]. reflexivity.
Qed.

Lemma keeps_transactions_trans (a b c : Connection) :
  durable b = durable a
  /\ rows_of (transactions_table (working b)) = rows_of (transactions_table (working a)) ->
  durable c = durable b
  /\ rows_of (transactions_table (working c)) = rows_of (transactions_table (working b)) ->
  durable c = durable a
  /\ rows_of (transactions_table (working c)) = rows_of (transactions_table (working a)).
Proof. intros [H1 H2] [H3 H4]. split; congruence. Qed.

Lemma create_tables_keeps_transactions (flt : option schema_fault) (c : Connection) :
  durable (fst (create_tables flt c)) = durable c
  /\ rows_of (transactions_table (working (fst (create_tables flt c))))
     = rows_of (transactions_table (working c)).
Proof.
  unfold create_tables. rewrite report_fst.
  apply (and_then_kept
           (fun a b =>
              durable b = durable a
              /\ rows_of (transactions_table (working b))
                 = rows_of (transactions_table (working a)))
           keeps_transactions_trans).
  - apply cursor_execute_keeps_transactions. discriminate.
  - intros c1.
    apply (and_then_kept
             (fun a b =>
                durable b = durable a
                /\ rows_of (transactions_table (working b))
                   = rows_of (transactions_table (working a)))
             keeps_transactions_trans).
    + apply cursor_execute_keeps_transactions. discriminate.
    + intros c2. apply cursor_execute_keeps_transactions. discriminate.
Qed.

Lemma execute_batch_keeps_transactions (A : Type) (sql : A -> statement)
    (flt : option fault) (argslist : list A) (c : Connection) :
  (forall args r, sql args <> InsertTransaction r) ->
  durable (fst (execute_batch flt 0 sql argslist c)) = durable c
  /\ rows_of (transactions_table (working (fst (execute_batch flt 0 sql argslist c))))
     = rows_of (transactions_table (working c)).
Proof.
  intros Hsql.
  apply (@execute_batch_kept_sql _ sql
           (fun a b =>
              durable b = durable a
              /\ rows_of (transactions_table (working b))
                 = rows_of (transactions_table (working a)))).
  - intros a. now split.
  - apply keeps_transactions_trans.
  - intros rejected args a. apply cursor_execute_keeps_transactions.
    intros r. apply Hsql.
Qed.

Lemma execute_batch_transactions_in (flt : option fault) (rows : list TransactionRow)
    (x : TransactionRow) :
  forall sent c,
    In x (rows_of (transactions_table
            (working (fst (execute_batch flt sent InsertTransaction rows c))))) ->
    In x (rows_of (transactions_table (working c))) \/ In x rows.
Proof.
  induction rows as [|r rows IH]; intros sent c; simpl; [now left|].
  destruct (client_raises flt sent); simpl; [now left|].
  destruct (cursor_execute (server_rejects flt sent) (InsertTransaction r) c)
    as [c' [e|]] eqn:E; simpl.
  - destruct (cursor_execute_cases (server_rejects flt sent) (InsertTransaction r) c)
      as [_ [Hw|Hw]]; rewrite E in Hw; simpl in Hw.
    + rewrite Hw. now left.
    + intros Hx. simpl in Hw.
      destruct (transactions_table (working c)) as [table|]; [|discriminate].
      injection Hw as Hw. rewrite <- Hw in Hx. simpl in Hx.
      apply upsert_transaction_in in Hx. destruct Hx as [Hx| ->]; auto.
  - intros Hx. apply IH in Hx. destruct Hx as [Hx|Hx]; [|right; now right].
    destruct (cursor_execute_cases (server_rejects flt sent) (InsertTransaction r) c)
      as [_ [Hw|Hw]]; rewrite E in Hw; simpl in Hw.
    + rewrite Hw in Hx. now left.
    + simpl in Hw.
      destruct (transactions_table (working c)) as [table|]; [|discriminate].
      injection Hw as Hw. rewrite <- Hw in Hx. simpl in Hx.
      apply upsert_transaction_in in Hx. destruct Hx as [Hx| ->]; auto.
Qed.

Section Provenance.

Context {lib : Library}.

Lemma write_transactions_in (flt : option fault) (c : Connection)
    (columns : list column_name) (rows : list TransactionRow) (x : TransactionRow) :
  In x (rows_of (transactions_table
          (working (fst (write_transactions flt c columns rows))))) ->
  In x (rows_of (transactions_table (working c)))
  \/ exists r, In r rows /\ bind_parameters (itertuples columns r) = Some x.
Proof.
  unfold write_transactions, transaction_parameters.
  destruct (traverse (fun r => bind_parameters (itertuples columns r)) rows)
    as [parameters|] eqn:Hp; [|now left].
  unfold insert_into_transactions_table. rewrite report_fst.
  intros Hx. apply execute_batch_transactions_in in Hx.
  destruct Hx as [Hx|Hx]; [now left|].
  right. exact (@traverse_in _ _ _ _ _ x Hp Hx).
Qed.

(** X14. Only accepted records reach [transactions_table]: after a run,
    whatever fails in it, every row of the table was there before the run
    or holds the values of a record of the batch whose currency is listed
    and whose date parses: the values of the converted record, bound by
    position in the order of the columns of the frame. *)
Theorem stored_transactions_come_from_accepted_records (records : list Transaction)
    (flt : Faults) (db : Database) (x : TransactionRow) :
  In x (rows_of (transactions_table (store (main records flt db)))) ->
  In x (rows_of (transactions_table db))
  \/ exists row r,
       In row (pd_DataFrame records) /\ accepts row = true
       /\ convert_row (snd row) = Some r
       /\ bind_parameters (itertuples (DataFrame_columns records) r) = Some x.
Proof.
  rewrite main_steps. destruct (connect_fails flt); [now left|]. cbv zeta.
  destruct (create_tables_keeps_transactions (create_tables_fault flt) (connect db))
    as [D1 T1].
  destruct records as [|first rest].
  { simpl. unfold close. rewrite D1. now left. }
  rewrite data_quality_checks_loaded_rows by discriminate.
  set (records := first :: rest) in *.
  destruct (convert_types (filter accepts (pd_DataFrame records)))
    as [e|rows] eqn:Hc.
  { simpl. unfold close. rewrite D1. now left. }
  set (s1 := create_tables (create_tables_fault flt) (connect db)) in *.
  set (s2 := write_transactions (transactions_fault flt) (fst s1)
               (DataFrame_columns records) rows).
  set (s3 := insert_into_customer_table (customer_fault flt) (fst s2) rows).
  set (s4 := insert_into_error_log_table (error_log_fault flt) (fst s3)
               (filter (fun row => negb (accepts row)) (pd_DataFrame records))).
  assert (T3 : durable (fst s3) = durable (fst s2)
               /\ rows_of (transactions_table (working (fst s3)))
                  = rows_of (transactions_table (working (fst s2)))).
  { unfold s3, insert_into_customer_table. rewrite report_fst.
    apply execute_batch_keeps_transactions. discriminate. }
  assert (T4 : durable (fst s4) = durable (fst s3)
               /\ rows_of (transactions_table (working (fst s4)))
                  = rows_of (transactions_table (working (fst s3)))).
  { unfold s4, insert_into_error_log_table. rewrite report_fst.
    apply execute_batch_keeps_transactions. discriminate. }
  assert (D2 : durable (fst s2) = durable (fst s1)).
  { apply (write_transactions_kept stays_failed stays_failed_refl
             stays_failed_trans stays_failed_step). }
  destruct T3 as [D3 T3], T4 as [D4 T4].
  simpl store. unfold commit.
  destruct (failed (fst s4)).
  { rewrite D4, D3, D2, D1. now left. }
  rewrite T4, T3. intros Hx. apply write_transactions_in in Hx.
  destruct Hx as [Hx|[r [Hr Hbind]]]; [left; now rewrite T1 in Hx|].
  right. unfold convert_types in Hc.
  destruct (traverse convert_row (map snd (filter accepts (pd_DataFrame records))))
    as [rows'|] eqn:Ht; [|discriminate].
  injection Hc as ->.
  destruct (@traverse_in _ _ _ _ _ r Ht Hr) as [t [Hin Hconv]].
  apply in_map_iff in Hin. destruct Hin as [row [<- Hrow]].
  apply filter_In in Hrow. destruct Hrow as [Hrow Hp].
  exists row, r. now repeat split.
Qed.

End Provenance.

(** X14 on a run whose customer sink fails in the client and whose batch
    holds an accepted and a rejected record. *)
Lemma stored_transactions_come_from_accepted_records_witness :
  In (mkTransactionRow 10%N "Alice" 5%N 19682%Z 1706779800%Z 17%Z 3%Z
        "EUR" 350%Z "card payment")
     (rows_of (transactions_table empty_store))
  \/ exists row r,
       In row (pd_DataFrame [coffee; lunch_cad])
       /\ accepts (lib := iso_library) row = true
       /\ convert_row (lib := iso_library) (snd row) = Some r
       /\ bind_parameters (lib := iso_library)
            (itertuples (DataFrame_columns [coffee; lunch_cad]) r)
          = Some (mkTransactionRow 10%N "Alice" 5%N 19682%Z 1706779800%Z 17%Z 3%Z
                    "EUR" 350%Z "card payment").
Proof.
  apply (@stored_transactions_come_from_accepted_records iso_library
           [coffee; lunch_cad]
           (mkFaults false None None (Some (client_error 0)) None) empty_store).
  vm_compute. left. reflexivity.
Defined.

(** ** The order of the keys and the empty batch *)

(** The transactions sink binds the whole rows by position, the customer
    sink selects its columns by name: for records that list
    [transactionId] before [customerId] the two identifiers change places
    in [transactions_table], and the stored transaction has no customer. *)
Example keys_in_another_order :
  store (main (lib := iso_library) [coffee_other_order] no_faults blank_store)
  = mkDatabase
      (Some [mkTransactionRow 5%N "Alice" 10%N 19682%Z 1706779800%Z 17%Z 3%Z
               "EUR" 350%Z "card payment"])
      (Some [mkCustomerRow 10%N "Alice" 19682%Z])
      (Some [])
  /\ ~ customers_cover
         (run (lib := iso_library) blank_store ([coffee_other_order], no_faults)).
Proof.
  split; [vm_compute; reflexivity|].
  intros H.
  specialize (H (mkTransactionRow 5%N "Alice" 10%N 19682%Z 1706779800%Z 17%Z 3%Z
                   "EUR" 350%Z "card payment")).
  vm_compute in H. destruct H as [H|H]; [now left|discriminate H|contradiction].
Qed.

(** A run on the empty batch raises before the sinks and leaves the store
    as it was. *)
Example empty_batch_run :
  main (lib := iso_library) [] no_faults blank_store
  = mkResult
      [ ("Connected to PostgreSQL database successfully!", None);
        ("Tables created successfully!", None) ]
      (Some KeyError) blank_store.
Proof.
  vm_compute. reflexivity.
Qed.
